(** * adclip: the summarize_video cloud function

    A shallow embedding of [src/functions/summarize_video/main.py]:
    the interval aligner [match_with_video_shots], the duration evaluator
    [calculate_duration] and the request handler [summarize_transcript]
    with its convergence loop.

    Conventions.
    - Timestamps and durations are Python numbers that the aligner only
      compares, selects with [min]/[max] and subtracts.  They are modelled
      as integers ([time := Z]); every finite set of timestamps embeds in
      [Z] preserving order, and the adjusted boundaries are always
      selected among input timestamps.  Durations are exact differences
      and sums, without the rounding of floats.
    - The loop counter [temperature] of the convergence loop is a binary64
      float, as in Python, so that [0.2 + 0.1 + ...] rounds as it does
      there.
    - A Python exception is a value of [exn]; code that can raise returns
      a [result]. *)

From Stdlib Require Import ZArith Bool Ascii String Floats Lia.
From Stdlib Require Import Sorted.
From stdpp Require Import base option list strings pretty.

Set Warnings "-inexact-float".
Local Open Scope Z_scope.

(** ** Exceptions and fallible computations *)

Inductive exn : Type :=
| IndexError
| TypeError
| ValueError
| UnboundLocalError.

Inductive result (A : Type) : Type :=
| Ok (a : A)
| Raise (e : exn).
Arguments Ok {A} a.
Arguments Raise {A} e.

#[global] Instance result_ret : MRet result := fun A a => Ok a.
#[global] Instance result_bind : MBind result := fun A B f m =>
  match m with
  | Ok a => f a
  | Raise e => Raise e
  end.

(** [xs[i]] for a non-negative index: IndexError past the end. *)
Definition index {A : Type} (xs : list A) (i : nat) : result A :=
  match xs !! i with
  | Some x => Ok x
  | None => Raise IndexError
  end.

(** ** Data model: the dictionaries the aligner reads and writes *)

Definition time : Type := Z.

(** A video shot [{'start_time': .., 'end_time': ..}]. *)
Module Shot.
Record t : Type := mk { start_time : time; end_time : time }.
End Shot.

(** A transcribed word [{'text': .., 'startTime': .., 'endTime': ..}]. *)
Module Word.
Record t : Type := mk { text : string; startTime : time; endTime : time }.
End Word.

(** A clip (a line of the shortened transcript).  ['duration'] is written
    by the aligner; [None] stands for a dictionary without that key. *)
Module Line.
Record t : Type := mk {
  text : string;
  startTime : time;
  endTime : time;
  duration : option time
}.
End Line.

(** ** match_with_video_shots *)

Module Aligner.

(** The two cursors shared by all iterations of the [for] loop. *)
Record cursor : Type := mk_cursor { shot_index : nat; word_index : nat }.

(** [while video_shots[shot_index]['end_time'] <= t: shot_index += 1]
    (and the same loop with [<]).  [rest] is [video_shots[shot_index:]],
    the shots the loop inspects in order; running off the list is the
    IndexError of the subscript. *)
Fixpoint skip_shots (past : time -> bool) (rest : list Shot.t)
    (shot_index : nat) : result nat :=
  match rest with
  | [] => Raise IndexError
  | video_shot :: rest' =>
      if past (Shot.end_time video_shot)
      then skip_shots past rest' (S shot_index)
      else Ok shot_index
  end.

Definition skip_shots_start (video_shots : list Shot.t) (shot_index : nat)
    (line_start : time) : result nat :=
  skip_shots (fun e => e <=? line_start) (drop shot_index video_shots) shot_index.

Definition skip_shots_end (video_shots : list Shot.t) (shot_index : nat)
    (line_end : time) : result nat :=
  skip_shots (fun e => e <? line_end) (drop shot_index video_shots) shot_index.

(** [word_index + 1 < len(words) - 1 and
     words[word_index+1]['endTime'] < line['startTime']] *)
Definition previous_word_test (words : list Word.t) (word_index : nat)
    (line_start : time) : bool :=
  (Z.of_nat word_index + 1 <? Z.of_nat (length words) - 1)
  && match words !! (word_index + 1)%nat with
     | Some w => Word.endTime w <? line_start
     | None => false
     end.

(** [word_index < len(words) - 2 and
     words[word_index]['startTime'] < line['endTime']] *)
Definition next_word_test (words : list Word.t) (word_index : nat)
    (line_end : time) : bool :=
  (Z.of_nat word_index <? Z.of_nat (length words) - 2)
  && match words !! word_index with
     | Some w => Word.startTime w <? line_end
     | None => false
     end.

(** [while test(word_index): word_index += 1].  Both tests bound the
    index by [len(words)], so [length words] iterations are enough
    (lemma [advance_word_exit]). *)
Fixpoint advance_word (fuel : nat) (test : nat -> bool) (word_index : nat) : nat :=
  match fuel with
  | O => word_index
  | S fuel' =>
      if test word_index
      then advance_word fuel' test (S word_index)
      else word_index
  end.

(** The local variables of one iteration of the [for] loop. *)
Record step : Type := mk_step {
  line : Line.t;                (* transcript[index] on entry *)
  start_shot : Shot.t;          (* video_shot for the start *)
  previous_index : nat;         (* word_index after the first word loop *)
  previous_word : Word.t;
  end_shot : Shot.t;            (* video_shot for the end *)
  next_index : nat;             (* word_index after the second word loop *)
  next_word : Word.t;
  adjusted : Line.t             (* transcript[index] on exit *)
}.

(** The body of the [for] loop, lines 74-102. *)
Definition align_line (video_shots : list Shot.t) (words : list Word.t)
    (c : cursor) (line : Line.t) : result (step * cursor) :=
  shot_index ← skip_shots_start video_shots (shot_index c) (Line.startTime line);
  video_shot ← index video_shots shot_index;
  let start_time := Z.min (Line.startTime line) (Shot.start_time video_shot) in
  let word_index :=
    advance_word (length words)
      (fun i => previous_word_test words i (Line.startTime line))
      (word_index c) in
  previous_word ← index words word_index;
  let start_time :=
    if negb (Word.startTime previous_word =? Line.startTime line)
    then Z.max (Word.endTime previous_word) start_time
    else start_time in
  shot_index' ← skip_shots_end video_shots shot_index (Line.endTime line);
  video_shot' ← index video_shots shot_index';
  let end_time := Z.max (Line.endTime line) (Shot.end_time video_shot') in
  let word_index' :=
    advance_word (length words)
      (fun i => next_word_test words i (Line.endTime line))
      word_index in
  next_word ← index words word_index';
  let end_time :=
    if negb (Word.endTime next_word =? Line.endTime line)
    then Z.min end_time (Word.startTime next_word)
    else end_time in
  mret (mk_step line video_shot word_index previous_word
          video_shot' word_index' next_word
          (Line.mk (Line.text line) start_time end_time
             (Some (end_time - start_time))),
        mk_cursor shot_index' word_index').

(** The [for] loop from a given cursor position. *)
Fixpoint align_from (video_shots : list Shot.t) (words : list Word.t)
    (c : cursor) (transcript : list Line.t) : result (list step) :=
  match transcript with
  | [] => mret []
  | line :: transcript' =>
      '(s, c') ← align_line video_shots words c line;
      steps ← align_from video_shots words c' transcript';
      mret (s :: steps)
  end.

Definition align_steps (video_shots : list Shot.t) (transcript : list Line.t)
    (words : list Word.t) : result (list step) :=
  align_from video_shots words (mk_cursor 0 0) transcript.

Definition match_with_video_shots (video_shots : list Shot.t)
    (transcript : list Line.t) (words : list Word.t) : result (list Line.t) :=
  steps ← align_steps video_shots transcript words;
  mret (map adjusted steps).

End Aligner.

(** ** Vocabulary for statements about the aligner *)

Module AlignerSpec.
Import Aligner.

(** The iterations of the [for] loop, one after the other: the run of
    [align_from] as a relation. *)
Inductive trace (video_shots : list Shot.t) (words : list Word.t)
    : cursor -> list Line.t -> list step -> Prop :=
| trace_nil c : trace video_shots words c [] []
| trace_cons c l transcript s c' steps :
    align_line video_shots words c l = Ok (s, c') ->
    trace video_shots words c' transcript steps ->
    trace video_shots words c (l :: transcript) (s :: steps).

(** The test of line 83: the segment start does not coincide with the
    start of the word under the cursor. *)
Definition start_clamp_applies (s : step) : bool :=
  negb (Word.startTime (previous_word s) =? Line.startTime (line s)).

(** The test of line 98. *)
Definition end_clamp_applies (s : step) : bool :=
  negb (Word.endTime (next_word s) =? Line.endTime (line s)).

(** Spec 4.1, step 1: tentative new start = [min(s.start, shot.start)]. *)
Definition tentative_start (s : step) : time :=
  Z.min (Line.startTime (line s)) (Shot.start_time (start_shot s)).

(** Spec 4.1, step 2: tentative new end = [max(s.end, shot.end)]. *)
Definition tentative_end (s : step) : time :=
  Z.max (Line.endTime (line s)) (Shot.end_time (end_shot s)).

(** Spec 4.1, step 1: final start = [max(tentative start, prevWord.end)]
    when the clamp applies, else the tentative start. *)
Definition final_start (s : step) : time :=
  if start_clamp_applies s
  then Z.max (tentative_start s) (Word.endTime (previous_word s))
  else tentative_start s.

(** Spec 4.1, step 2: the tentative end clamped to be no later than
    [nextWord.start] when [nextWord.end != s.end]. *)
Definition final_end (s : step) : time :=
  if end_clamp_applies s
  then Z.min (tentative_end s) (Word.startTime (next_word s))
  else tentative_end s.

(** The start was clamped by the word boundary: the clamp applies and
    moved the tentative start. *)
Definition start_clamped (s : step) : bool :=
  start_clamp_applies s && (tentative_start s <? Word.endTime (previous_word s)).

Definition end_clamped (s : step) : bool :=
  end_clamp_applies s && (Word.startTime (next_word s) <? tentative_end s).

(** Spec 4.1, step 1: the shot cursor is advanced while the current
    shot's [end <= s.start]; [j] is where it stops. *)
Definition shot_cursor_after_start (video_shots : list Shot.t) (from : nat)
    (line_start : time) (j : nat) : Prop :=
  (from <= j)%nat
  /\ (forall k, (from <= k < j)%nat ->
        exists sh, video_shots !! k = Some sh /\ Shot.end_time sh <= line_start)
  /\ (exists sh, video_shots !! j = Some sh /\ line_start < Shot.end_time sh).

(** Spec 4.1, step 1: the word cursor is advanced while the next word's
    [end < s.start], bounded so as not to run past the second-to-last
    word; [k] is where it stops. *)
Definition word_cursor_after_start (words : list Word.t) (from : nat)
    (line_start : time) (k : nat) : Prop :=
  (from <= k)%nat
  /\ (forall i, (from <= i < k)%nat ->
        (i + 1 < length words - 1)%nat
        /\ exists w, words !! (i + 1)%nat = Some w /\ Word.endTime w < line_start)
  /\ ~ ((k + 1 < length words - 1)%nat
        /\ exists w, words !! (k + 1)%nat = Some w /\ Word.endTime w < line_start)
  /\ (k <= Nat.max from (length words - 2))%nat.

(** One iteration of the [for] loop, from cursor [c] to cursor [c'],
    in the vocabulary above. *)
Definition iteration (video_shots : list Shot.t) (words : list Word.t)
    (c : cursor) (s : step) (c' : cursor) : Prop :=
  exists si,
    skip_shots_start video_shots (shot_index c) (Line.startTime (line s)) = Ok si
    /\ video_shots !! si = Some (start_shot s)
    /\ previous_index s
       = advance_word (length words)
           (fun i => previous_word_test words i (Line.startTime (line s)))
           (word_index c)
    /\ words !! previous_index s = Some (previous_word s)
    /\ skip_shots_end video_shots si (Line.endTime (line s)) = Ok (shot_index c')
    /\ video_shots !! shot_index c' = Some (end_shot s)
    /\ next_index s
       = advance_word (length words)
           (fun i => next_word_test words i (Line.endTime (line s)))
           (previous_index s)
    /\ words !! next_index s = Some (next_word s)
    /\ word_index c' = next_index s
    /\ adjusted s
       = Line.mk (Line.text (line s)) (final_start s) (final_end s)
           (Some (final_end s - final_start s)).

(** The largest index the word cursor can take: [max(0, len(words) - 2)]. *)
Definition word_cursor_limit (words : list Word.t) : Z :=
  Z.max 0 (Z.of_nat (length words) - 2).

(** Words in ascending order without overlap. *)
Definition words_ascending (words : list Word.t) : Prop :=
  (forall w, w ∈ words -> Word.startTime w <= Word.endTime w)
  /\ (forall i w w', words !! i = Some w -> words !! S i = Some w' ->
        Word.endTime w <= Word.startTime w').

(** Segments that are the spans of ascending, disjoint runs of words
    [words[a..b]] starting at index [lo] or later, none of which contains
    the last word. *)
Inductive word_spans (words : list Word.t) : nat -> list Line.t -> Prop :=
| word_spans_nil lo : word_spans words lo []
| word_spans_cons lo a b wa wb l transcript :
    (lo <= a <= b)%nat ->
    (b + 1 < length words)%nat ->
    words !! a = Some wa ->
    words !! b = Some wb ->
    Line.startTime l = Word.startTime wa ->
    Line.endTime l = Word.endTime wb ->
    word_spans words (S b) transcript ->
    word_spans words lo (l :: transcript).

(** Input segments ordered ascending without overlap. *)
Inductive segments_ordered : list Line.t -> Prop :=
| segments_ordered_nil : segments_ordered []
| segments_ordered_cons l transcript :
    Line.startTime l <= Line.endTime l ->
    Forall (fun l' => Line.endTime l <= Line.startTime l') transcript ->
    segments_ordered transcript ->
    segments_ordered (l :: transcript).

(** Shots in ascending order, and covering every segment. *)
Definition shots_ascending (video_shots : list Shot.t) : Prop :=
  (forall sh, sh ∈ video_shots -> Shot.start_time sh <= Shot.end_time sh)
  /\ (forall i sh sh', video_shots !! i = Some sh -> video_shots !! S i = Some sh' ->
        Shot.end_time sh <= Shot.start_time sh').

(** The last shot ends after every segment start and not before any
    segment end. *)
Definition shots_reach (video_shots : list Shot.t) (transcript : list Line.t) : Prop :=
  exists last_shot,
    last video_shots = Some last_shot
    /\ Forall (fun l => Line.startTime l < Shot.end_time last_shot
                       /\ Line.endTime l <= Shot.end_time last_shot) transcript.

Definition shots_cover (video_shots : list Shot.t) (transcript : list Line.t) : Prop :=
  shots_reach video_shots transcript
  /\ exists first,
      head video_shots = Some first
      /\ Forall (fun l => Shot.start_time first <= Line.startTime l) transcript.

Definition words_cover (words : list Word.t) (transcript : list Line.t) : Prop :=
  exists first last_word,
    head words = Some first /\ last words = Some last_word
    /\ Forall (fun l => Word.startTime first <= Line.startTime l
                       /\ Line.endTime l <= Word.endTime last_word) transcript.

(** The boundaries of a segment. *)
Definition times (l : Line.t) : time * time :=
  (Line.startTime l, Line.endTime l).

(** This iteration leaves the start (the end) of its segment where it
    was. *)
Definition start_stable (s : step) : Prop :=
  if start_clamp_applies s
  then Word.endTime (previous_word s) = Line.startTime (line s)
       \/ (Word.endTime (previous_word s) <= Line.startTime (line s)
           /\ Line.startTime (line s) <= Shot.start_time (start_shot s))
  else Line.startTime (line s) <= Shot.start_time (start_shot s).

Definition end_stable (s : step) : Prop :=
  if end_clamp_applies s
  then Word.startTime (next_word s) = Line.endTime (line s)
       \/ (Line.endTime (line s) <= Word.startTime (next_word s)
           /\ Shot.end_time (end_shot s) <= Line.endTime (line s))
  else Shot.end_time (end_shot s) <= Line.endTime (line s).

End AlignerSpec.

(** ** Sample timelines *)

Module Samples.
Import Aligner.

Definition shot (s e : time) : Shot.t := Shot.mk s e.
Definition word (s e : time) : Word.t := Word.mk "" s e.
Definition clip (s e : time) : Line.t := Line.mk "" s e None.
Definition aligned (s e : time) : Line.t := Line.mk "" s e (Some (e - s)).

Definition steps_of (r : result (list step)) : list step :=
  match r with
  | Ok steps => steps
  | Raise _ => []
  end.

(** One shot of 100 seconds and six words of one second, one second
    apart. *)
Definition one_shot : list Shot.t := [shot 0 100].
Definition six_words : list Word.t :=
  [word 0 1; word 2 3; word 4 5; word 6 7; word 8 9; word 10 11].

(** The second word and the third word. *)
Definition two_clips : list Line.t := [clip 2 3; clip 4 5].

Definition two_clips_steps : list step :=
  Eval vm_compute in steps_of (align_steps one_shot two_clips six_words).

End Samples.

(** ** The request handler and its collaborators *)

(** A JSON value of the request payload, as far as the handler inspects
    it.  [request.data.get(k)] is [PNone] for a missing key. *)
Inductive pyval : Type :=
| PNone
| PBool (b : bool)
| PNum (x : time)
| PStr (s : string)
| POther.

#[global] Instance pyval_eq_dec : EqDecision pyval.
Proof. solve_decision. Defined.

(** A line of the input transcript [{'text': .., 'words': [..]}]. *)
Module TranscriptLine.
Record t : Type := mk { text : string; words : list Word.t }.
End TranscriptLine.

(** [request.data].  ['transcript'] is read with a subscript and must be
    present; the other fields are read with [.get] and are [PNone] when
    the key is missing. *)
Module Request.
Record t : Type := mk {
  transcript : list TranscriptLine.t;
  prompt : pyval;
  filename : pyval;
  max : pyval;
  min : pyval;
  language_code : pyval;
  version : pyval
}.
End Request.

(** The [Language] interface of the [languages] module.  Every call of
    [get_clips_from_transcript] returns clips of its own, which the
    aligner may overwrite without touching the words or the input
    transcript. *)
Record Language : Type := {
  get_clips_from_transcript :
    list Word.t -> string -> list TranscriptLine.t -> list Line.t
}.

(** The modules [languages], [llm] and [firestore] and the string parser
    of [float()] are not part of the handler; it is parametrised by them.
    [llm_reply n text temperature] is the reply of the model to the
    [n]-th call of [send_transcript_to_llm] ([temperature = None] when the
    argument is left to its default): the model need not answer the same
    prompt twice in the same way. *)
Class Collaborators : Type := {
  float_of_str : string -> option time;
  DefaultLanguage : Language;
  Thai : Language;
  llm_reply : nat -> string -> option float -> string;
  make_prompt : string -> pyval -> string;
  make_prompt_summarize : string -> pyval -> string;
  keep_branding_sentences : string -> string;
  make_prompt_match_sentence_to_bullet_points : string -> string -> string;
  sentence_dict : Type;
  transform_sentences_to_dict : string -> sentence_dict;
  make_shortened_text : sentence_dict -> string;
  get_video_shots : pyval -> list Shot.t
}.

(** What the handler does to the outside world: the calls it sends to the
    model and the documents it writes. *)
Inductive upload : Type :=
| upload_summary_doc (full_text shortened_text : string)
| upload_summary_transformation_doc
    (filename : pyval) (full_text shortened_text output_text : string).

Record world : Type := mk_world {
  llm_calls : list (string * option float);
  uploads : list upload
}.

(** Outcome of running effectful code with a bound on loop iterations:
    [Diverged] is a [while] loop that needs more iterations than that. *)
Inductive outcome (A : Type) : Type :=
| Done (a : A) (w : world)
| Raised (e : exn) (w : world)
| Diverged (w : world).
Arguments Done {A} a w.
Arguments Raised {A} e w.
Arguments Diverged {A} w.

(** The world after one more call to the model. *)
Definition call (w : world) (text : string) (temperature : option float) : world :=
  mk_world (llm_calls w ++ [(text, temperature)]) (uploads w).

Definition M (A : Type) : Type := world -> outcome A.

#[global] Instance M_ret : MRet M := fun A a w => Done a w.
#[global] Instance M_bind : MBind M := fun A B f m w =>
  match m w with
  | Done a w' => f a w'
  | Raised e w' => Raised e w'
  | Diverged w' => Diverged w'
  end.

Definition lift {A : Type} (r : result A) : M A := fun w =>
  match r with
  | Ok a => Done a w
  | Raise e => Raised e w
  end.

Definition diverge {A : Type} : M A := fun w => Diverged w.

(** What the handler hands back to the caller: the dictionary
    [{'summarized_transcript': segments}], or the exception object of
    line 161, which is returned, not raised. *)
Inductive response : Type :=
| Segments (segments : list Line.t)
| ErrorValue (e : exn) (msg : string).

Definition MAX_DURATION : time := 40.
Definition MIN_DURATION : time := 10.
Definition LANGUAGE_CODE : string := "en-US".

Definition newline : string := String (ascii_of_nat 10) EmptyString.

(** [sep.join(xs)] *)
Definition join (sep : string) (xs : list string) : string := String.concat sep xs.

(** [s.strip(chars)] for the set of characters [strip_set]. *)
Fixpoint lstrip (strip_set : ascii -> bool) (cs : list ascii) : list ascii :=
  match cs with
  | [] => []
  | c :: cs' => if strip_set c then lstrip strip_set cs' else cs
  end.

Definition strip (strip_set : ascii -> bool) (s : string) : string :=
  string_of_list_ascii
    (rev (lstrip strip_set (rev (lstrip strip_set (list_ascii_of_string s))))).

Definition is_space (c : ascii) : bool := Ascii.eqb c " "%char.

(** ASCII whitespace, what [s.strip()] removes. *)
Definition is_whitespace (c : ascii) : bool :=
  let n := nat_of_ascii c in
  ((9 <=? n)%nat && (n <=? 13)%nat) || ((28 <=? n)%nat && (n <=? 32)%nat).

Module Service.
Section Handler.
Context `{Collaborators}.

(** [float(v)] *)
Definition py_float (v : pyval) : result time :=
  match v with
  | PNone => Raise TypeError
  | PBool b => Ok (if b then 1 else 0)
  | PNum x => Ok x
  | PStr s =>
      match float_of_str s with
      | Some x => Ok x
      | None => Raise ValueError
      end
  | POther => Raise TypeError
  end.

(** Lines 133-140: the [try] block and its bare [except]. *)
Definition read_bounds (data : Request.t) : time * time * pyval :=
  let attempt : result (time * time * pyval) :=
    max_duration ← py_float (Request.max data);
    min_duration ← py_float (Request.min data);
    mret (max_duration, min_duration, Request.language_code data) in
  match attempt with
  | Ok bounds => bounds
  | Raise _ => (MAX_DURATION, MIN_DURATION, PStr LANGUAGE_CODE)
  end.

(** [llm.send_transcript_to_llm(text=.., temperature=..)] *)
Definition send_transcript_to_llm (text : string) (temperature : option float)
    : M string := fun w =>
  Done (llm_reply (length (llm_calls w)) text temperature)
       (call w text temperature).

Definition upload_summary (full_text shortened_text : string) : M unit := fun w =>
  Done tt (mk_world (llm_calls w)
             (uploads w ++ [upload_summary_doc full_text shortened_text])).

Definition upload_summary_transformation (filename : pyval)
    (full_text shortened_text output_text : string) : M unit := fun w =>
  Done tt (mk_world (llm_calls w)
             (uploads w ++ [upload_summary_transformation_doc
                              filename full_text shortened_text output_text])).

(** Lines 39-54. *)
Definition calculate_duration (shortened_text : string)
    (transcript_words : list Word.t) (video_shots : list Shot.t)
    (input_transcript : list TranscriptLine.t) (language : Language)
    : result time :=
  let clips :=
    get_clips_from_transcript language transcript_words shortened_text
      input_transcript in
  clips ← Aligner.match_with_video_shots video_shots clips transcript_words;
  foldl (fun total clip =>
           total_duration ← total;
           match Line.duration clip with
           | Some d => Ok (total_duration + d)
           | None => Raise TypeError
           end)
        (Ok 0) clips.

(** Everything the convergence loop reads but does not assign. *)
Record loop_env : Type := mk_loop_env {
  full_text : string;
  user_prompt : pyval;
  max_duration : time;
  min_duration : time;
  transcript_words : list Word.t;
  video_shots : list Shot.t;
  input_transcript : list TranscriptLine.t;
  language : Language
}.

(** The variables the loop assigns. *)
Record loop_state : Type := mk_loop_state {
  temperature : float;
  duration : time;
  shortened_text : string
}.

(** The test of the [while] loop, line 178. *)
Definition loop_test (e : loop_env) (s : loop_state) : bool :=
  PrimFloat.ltb (temperature s) 0.6%float
  && ((max_duration e <? duration s) || (duration s <? min_duration e)).

(** The body of the [while] loop, lines 179-193. *)
Definition loop_body (e : loop_env) (s : loop_state) : M loop_state :=
  if duration s <? min_duration e then
    shortened_text ← send_transcript_to_llm
                       (make_prompt (full_text e) (user_prompt e)) None;
    mret (mk_loop_state (temperature s) (duration s) shortened_text)
  else
    shortened_text ← send_transcript_to_llm
                       (make_prompt (shortened_text s) (user_prompt e)) None;
    duration ← lift (calculate_duration shortened_text (transcript_words e)
                       (video_shots e) (input_transcript e) (language e));
    mret (mk_loop_state (PrimFloat.add (temperature s) 0.1%float)
            duration shortened_text).

(** The [while] loop, run for at most [fuel] iterations. *)
Fixpoint convergence_loop (fuel : nat) (e : loop_env) (s : loop_state)
    : M loop_state :=
  if loop_test e s then
    match fuel with
    | O => diverge
    | S fuel' => s' ← loop_body e s; convergence_loop fuel' e s'
    end
  else mret s.

(** The loop run from [s] ends, normally or by an exception, after at
    most [n] more calls to the model. *)
Definition halts_within (e : loop_env) (fuel : nat) (s : loop_state) (w : world)
    (n : nat) : Prop :=
  exists w',
    ((exists s', convergence_loop fuel e s w = Done s' w')
     \/ (exists x, convergence_loop fuel e s w = Raised x w'))
    /\ (length (llm_calls w') <= length (llm_calls w) + n)%nat.

Definition blocked : string := "The response was blocked".

(** Lines 151-193: the branch [version == "automated"].  [inl] is the
    early [return] of line 161, [inr] the values of [full_text] and
    [shortened_text] at the end of the branch ([None] is a variable
    that was never assigned). *)
Definition automated (fuel : nat) (data : Request.t) (max_duration min_duration : time)
    (transcript_words : list Word.t) (video_shots : list Shot.t)
    (language : Language) : M (response + option string * option string) :=
  let input_transcript := Request.transcript data in
  let user_prompt := Request.prompt data in
  let full_text := join newline (map TranscriptLine.text input_transcript) in
  shortened_text ← send_transcript_to_llm (make_prompt full_text user_prompt) None;
  if String.eqb shortened_text blocked then
    mret (inl (ErrorValue ValueError
      "The response was blocked due to potential violation of Responsible AI"))
  else
    duration ← lift (calculate_duration shortened_text transcript_words
                       video_shots input_transcript language);
    '(mk_loop_state _ _ shortened_text) ←
      convergence_loop fuel
        (mk_loop_env full_text user_prompt max_duration min_duration
           transcript_words video_shots input_transcript language)
        (mk_loop_state 0.2%float duration shortened_text);
    mret (inr (Some full_text, Some shortened_text)).

(** Lines 195-217: the branch [version == "topic"]. *)
Definition topic (data : Request.t) : M (option string * option string) :=
  let input_transcript := Request.transcript data in
  let user_prompt := Request.prompt data in
  let full_text :=
    join newline
      (imap (fun counter x =>
               "Line " +:+ pretty counter +:+ ": " +:+ TranscriptLine.text x)
            input_transcript) in
  reply ← send_transcript_to_llm (make_prompt_summarize full_text user_prompt) None;
  let summary_in_bullets := strip is_space reply in
  reply ← send_transcript_to_llm (keep_branding_sentences full_text)
            (Some 0.1%float);
  let branding_sentences := strip is_whitespace reply in
  reply ← send_transcript_to_llm
            (make_prompt_match_sentence_to_bullet_points full_text
               summary_in_bullets) None;
  let match_sentences_to_bullet_points := strip is_whitespace reply in
  let match_sentences_to_bullet_points :=
    match_sentences_to_bullet_points +:+ newline +:+ newline
      +:+ branding_sentences in
  let shortened_text :=
    make_shortened_text
      (transform_sentences_to_dict match_sentences_to_bullet_points) in
  mret (Some full_text, Some shortened_text).

(** Reading a local variable that may not have been assigned. *)
Definition read_local {A : Type} (v : option A) : M A :=
  match v with
  | Some a => mret a
  | None => lift (Raise UnboundLocalError)
  end.

(** Lines 219-238, after the two branches. *)
Definition finish (data : Request.t) (transcript_words : list Word.t)
    (video_shots : list Shot.t) (language : Language)
    (full_text shortened_text : option string) : M response :=
  full_text ← read_local full_text;
  shortened_text ← read_local shortened_text;
  upload_summary full_text shortened_text;;
  let segments :=
    get_clips_from_transcript language transcript_words shortened_text
      (Request.transcript data) in
  segments ← lift (Aligner.match_with_video_shots video_shots segments transcript_words);
  let output_text := join newline (map Line.text segments) in
  upload_summary_transformation (Request.filename data) full_text
    shortened_text output_text;;
  mret (Segments segments).

(** Lines 107-238.  [fuel] bounds the iterations of the [while] loop. *)
Definition summarize_transcript (fuel : nat) (data : Request.t) : M response :=
  let input_transcript := Request.transcript data in
  let filename := Request.filename data in
  let version := Request.version data in
  let '(max_duration, min_duration, language_code) := read_bounds data in
  let language :=
    if bool_decide (language_code = PStr "th-TH") then Thai else DefaultLanguage in
  let list_of_words := map TranscriptLine.words input_transcript in
  let transcript_words := concat list_of_words in
  let video_shots := get_video_shots filename in
  branch ←
    (if bool_decide (version = PStr "automated")
     then automated fuel data max_duration min_duration transcript_words
            video_shots language
     else mret (inr (None, None)));
  match branch with
  | inl returned => mret returned
  | inr (full_text, shortened_text) =>
      '(full_text, shortened_text) ←
        (if bool_decide (version = PStr "topic")
         then topic data
         else mret (full_text, shortened_text));
      finish data transcript_words video_shots language full_text shortened_text
  end.

End Handler.
End Service.

(** ** Sample collaborators and requests *)

Module ServiceSamples.
Import Samples.

(** A span mapper that knows three shortened texts: ["short"] is the first
    word, ["long"] the first two words, anything else the second word. *)
Definition sample_language : Language := {|
  get_clips_from_transcript := fun _ shortened_text _ =>
    if String.eqb shortened_text "short" then [Line.mk shortened_text 0 5 None]
    else if String.eqb shortened_text "long" then [Line.mk shortened_text 0 45 None]
    else [Line.mk shortened_text 5 45 None]
|}.

(** Collaborators with a scripted model: [reply n] is its answer to the
    [n]-th call.  Prompts are the text itself. *)
Definition scripted (reply : nat -> string) : Collaborators := {|
  float_of_str := fun _ => None;
  DefaultLanguage := sample_language;
  Thai := sample_language;
  llm_reply := fun n _ _ => reply n;
  make_prompt := fun text _ => text;
  make_prompt_summarize := fun text _ => text;
  keep_branding_sentences := fun text => text;
  make_prompt_match_sentence_to_bullet_points := fun text _ => text;
  sentence_dict := string;
  transform_sentences_to_dict := fun text => text;
  make_shortened_text := fun text => text;
  get_video_shots := fun _ => [shot 0 100]
|}.

(** First a text of 5 seconds, then texts of 45 seconds. *)
Definition short_then_long (n : nat) : string :=
  match n with
  | O => "short"
  | S _ => "long"
  end.

(** First a text of 45 seconds, then the blocked sentinel. *)
Definition long_then_blocked (n : nat) : string :=
  match n with
  | O => "long"
  | S _ => "The response was blocked"
  end.

Definition always_blocked (n : nat) : string := "The response was blocked".

Definition sample_transcript : list TranscriptLine.t :=
  [TranscriptLine.mk "a b c d" [word 0 5; word 5 45; word 45 60; word 60 70]].

Definition sample_request (version max min language_code : pyval) : Request.t :=
  Request.mk sample_transcript PNone (PStr "video") max min language_code version.

Definition automated_request : Request.t :=
  sample_request (PStr "automated") (PNum 40) (PNum 10) (PStr "en-US").

Definition topic_request : Request.t :=
  sample_request (PStr "topic") (PNum 40) (PNum 10) (PStr "en-US").

Definition nothing_yet : world := mk_world [] [].

(** The environment of the convergence loop for [automated_request]. *)
Definition sample_loop_env : @Service.loop_env :=
  Service.mk_loop_env "a b c d" PNone 40 10
    [word 0 5; word 5 45; word 45 60; word 60 70] [shot 0 100]
    sample_transcript sample_language.

End ServiceSamples.

(** ** Vocabulary for further statements *)

Module MoreSpec.
Import Aligner.

(** The positions the word cursor takes during a run, in the order in
    which the loops leave it. *)
Definition word_cursor_path (steps : list step) : list nat :=
  flat_map (fun s => [previous_index s; next_index s]) steps.

(** The sum of [endTime - startTime] over a list of clips. *)
Definition total_length (clips : list Line.t) : time :=
  foldr (fun clip total => (Line.endTime clip - Line.startTime clip) + total) 0 clips.

(** Shots that follow one another without a gap. *)
Definition shots_contiguous (video_shots : list Shot.t) : Prop :=
  forall i sh sh', video_shots !! i = Some sh -> video_shots !! S i = Some sh' ->
    Shot.end_time sh = Shot.start_time sh'.

(** No clip starts before the first shot. *)
Definition shots_start_before (video_shots : list Shot.t)
    (transcript : list Line.t) : Prop :=
  forall first, head video_shots = Some first ->
    Forall (fun l => Shot.start_time first <= Line.startTime l) transcript.

(** The world in which a run stopped, however it stopped. *)
Definition world_of {A : Type} (o : outcome A) : world :=
  match o with
  | Done _ w => w
  | Raised _ w => w
  | Diverged w => w
  end.

(** The request with the three defaults written out. *)
Definition with_defaults (data : Request.t) : Request.t :=
  Request.mk (Request.transcript data) (Request.prompt data)
    (Request.filename data) (PNum MAX_DURATION) (PNum MIN_DURATION)
    (PStr LANGUAGE_CODE) (Request.version data).

End MoreSpec.

(** ** Vocabulary for statements about the handler *)

Module ServiceSpec.
Import Service.

Section Handler.
Context `{Collaborators}.

(** The values the handler computes before it looks at the version. *)
Definition language_of (data : Request.t) : Language :=
  if bool_decide ((read_bounds data).2 = PStr "th-TH") then Thai else DefaultLanguage.

Definition words_of (data : Request.t) : list Word.t :=
  concat (map TranscriptLine.words (Request.transcript data)).

Definition shots_of (data : Request.t) : list Shot.t :=
  get_video_shots (Request.filename data).

(** The clips of a shortened text, before alignment. *)
Definition clips_of (data : Request.t) (shortened_text : string) : list Line.t :=
  get_clips_from_transcript (language_of data) (words_of data) shortened_text
    (Request.transcript data).

(** [calculate_duration] as the handler calls it. *)
Definition duration_of (data : Request.t) (shortened_text : string) : result time :=
  calculate_duration shortened_text (words_of data) (shots_of data)
    (Request.transcript data) (language_of data).

(** The full text and the first prompt of the automated branch. *)
Definition automated_full_text (data : Request.t) : string :=
  join newline (map TranscriptLine.text (Request.transcript data)).

Definition automated_prompt (data : Request.t) : string :=
  make_prompt (automated_full_text data) (Request.prompt data).

(** The full text of the topic branch, with its line numbers. *)
Definition topic_full_text (data : Request.t) : string :=
  join newline
    (imap (fun counter x =>
             "Line " +:+ pretty counter +:+ ": " +:+ TranscriptLine.text x)
          (Request.transcript data)).

(** The world after the two writes of a run that returns segments. *)
Definition written (w : world) (us : list upload) : world :=
  mk_world (llm_calls w) (uploads w ++ us).

End Handler.
End ServiceSpec.

(** A span mapper for which every shortened text is the first two words,
    45 seconds, and collaborators that use it. *)
Module MoreSamples.
Import Samples ServiceSamples.

Definition long_language : Language := {|
  get_clips_from_transcript := fun _ shortened_text _ =>
    [Line.mk shortened_text 0 45 None]
|}.

Definition always_long : Collaborators := {|
  float_of_str := fun _ => None;
  DefaultLanguage := long_language;
  Thai := long_language;
  llm_reply := fun n _ _ => "long";
  make_prompt := fun text _ => text;
  make_prompt_summarize := fun text _ => text;
  keep_branding_sentences := fun text => text;
  make_prompt_match_sentence_to_bullet_points := fun text _ => text;
  sentence_dict := string;
  transform_sentences_to_dict := fun text => text;
  make_shortened_text := fun text => text;
  get_video_shots := fun _ => [shot 0 100]
|}.

Definition long_loop_env : @Service.loop_env :=
  Service.mk_loop_env "a b c d" PNone 40 10
    [word 0 5; word 5 45; word 45 60; word 60 70] [shot 0 100]
    sample_transcript long_language.

End MoreSamples.

(** ** The algorithm of the spec, clip after clip *)

Module AlignerWalk.
Import AlignerSpec.

(** Spec 4.1, step 2: the shot cursor is advanced while the current
    shot's [end < s.end]; [j] is where it stops. *)
Definition shot_cursor_after_end (video_shots : list Shot.t) (from : nat)
    (line_end : time) (j : nat) : Prop :=
  (from <= j)%nat
  /\ (forall k, (from <= k < j)%nat ->
        exists sh, video_shots !! k = Some sh /\ Shot.end_time sh < line_end)
  /\ (exists sh, video_shots !! j = Some sh /\ line_end <= Shot.end_time sh).

(** Spec 4.1, step 2: the word cursor is advanced while the current word's
    [start < s.end], bounded so as not to run past the second-to-last
    word; [k] is where it stops. *)
Definition word_cursor_after_end (words : list Word.t) (from : nat)
    (line_end : time) (k : nat) : Prop :=
  (from <= k)%nat
  /\ (forall i, (from <= i < k)%nat ->
        (i < length words - 2)%nat
        /\ exists w, words !! i = Some w /\ Word.startTime w < line_end)
  /\ ~ ((k < length words - 2)%nat
        /\ exists w, words !! k = Some w /\ Word.startTime w < line_end)
  /\ (k <= Nat.max from (length words - 2))%nat.

(** What the two cursors point at while one clip is aligned. *)
Record context : Type := mk_context {
  startShot : Shot.t;   (* the shot under the cursor for the start *)
  prevWord : Word.t;    (* the word under the cursor for the start *)
  endShot : Shot.t;     (* the shot under the cursor for the end *)
  nextWord : Word.t     (* the word under the cursor for the end *)
}.

(** The single forward pass of spec 4.1: the two cursors start where the
    previous clip left them, are advanced as the four definitions say,
    and every clip [l] and its aligned clip [l'] are related by [R] in the
    context the cursors give. *)
Inductive walk (video_shots : list Shot.t) (words : list Word.t)
    (R : context -> Line.t -> Line.t -> Prop)
    : nat -> nat -> list Line.t -> list Line.t -> Prop :=
| walk_nil shot_cursor word_cursor :
    walk video_shots words R shot_cursor word_cursor [] []
| walk_cons shot_cursor word_cursor l l' transcript out j k j' k' ctx :
    shot_cursor_after_start video_shots shot_cursor (Line.startTime l) j ->
    video_shots !! j = Some (startShot ctx) ->
    word_cursor_after_start words word_cursor (Line.startTime l) k ->
    words !! k = Some (prevWord ctx) ->
    shot_cursor_after_end video_shots j (Line.endTime l) j' ->
    video_shots !! j' = Some (endShot ctx) ->
    word_cursor_after_end words k (Line.endTime l) k' ->
    words !! k' = Some (nextWord ctx) ->
    R ctx l l' ->
    walk video_shots words R j' k' transcript out ->
    walk video_shots words R shot_cursor word_cursor (l :: transcript) (l' :: out).

(** Spec 4.1, step 1: tentative new start = [min(s.start, shot.start)];
    final start = [max(tentative start, prevWord.end)] when
    [prevWord.start != s.start], else the tentative start. *)
Definition specified_tentative_start (ctx : context) (l : Line.t) : time :=
  Z.min (Line.startTime l) (Shot.start_time (startShot ctx)).

Definition specified_start (ctx : context) (l : Line.t) : time :=
  if negb (Word.startTime (prevWord ctx) =? Line.startTime l)
  then Z.max (specified_tentative_start ctx l) (Word.endTime (prevWord ctx))
  else specified_tentative_start ctx l.

(** Spec 4.1, step 2, in the same way. *)
Definition specified_tentative_end (ctx : context) (l : Line.t) : time :=
  Z.max (Line.endTime l) (Shot.end_time (endShot ctx)).

Definition specified_end (ctx : context) (l : Line.t) : time :=
  if negb (Word.endTime (nextWord ctx) =? Line.endTime l)
  then Z.min (specified_tentative_end ctx l) (Word.startTime (nextWord ctx))
  else specified_tentative_end ctx l.


(** The whole clip is the one spec 4.1 gives. *)
Definition clip_as_specified (ctx : context) (l l' : Line.t) : Prop :=
  l' = Line.mk (Line.text l) (specified_start ctx l) (specified_end ctx l)
         (Some (specified_end ctx l - specified_start ctx l)).

(** Monotonic snapping up to the word clamps.  The start moves back or
    stays, unless [prevWord.start != s.start] and [prevWord.end] lies after
    the tentative start: then the start is [prevWord.end].  Whenever
    [prevWord.start != s.start], the start is [prevWord.end] or the
    tentative start, and never earlier than [prevWord.end].  The end
    symmetrically, with [nextWord]. *)
Definition snapped_up_to_clamps (ctx : context) (l l' : Line.t) : Prop :=
  (Line.startTime l' <= Line.startTime l
   \/ (Word.startTime (prevWord ctx) <> Line.startTime l
       /\ specified_tentative_start ctx l < Word.endTime (prevWord ctx)
       /\ Line.startTime l' = Word.endTime (prevWord ctx)))
  /\ (Word.startTime (prevWord ctx) <> Line.startTime l ->
      Word.endTime (prevWord ctx) <= Line.startTime l'
      /\ (Line.startTime l' = Word.endTime (prevWord ctx)
          \/ Line.startTime l' = specified_tentative_start ctx l))
  /\ (Word.startTime (prevWord ctx) = Line.startTime l ->
      Line.startTime l' = specified_tentative_start ctx l)
  /\ (Line.endTime l <= Line.endTime l'
      \/ (Word.endTime (nextWord ctx) <> Line.endTime l
          /\ Word.startTime (nextWord ctx) < specified_tentative_end ctx l
          /\ Line.endTime l' = Word.startTime (nextWord ctx)))
  /\ (Word.endTime (nextWord ctx) <> Line.endTime l ->
      Line.endTime l' <= Word.startTime (nextWord ctx)
      /\ (Line.endTime l' = Word.startTime (nextWord ctx)
          \/ Line.endTime l' = specified_tentative_end ctx l))
  /\ (Word.endTime (nextWord ctx) = Line.endTime l ->
      Line.endTime l' = specified_tentative_end ctx l).

(** The context of one iteration of the [for] loop. *)
Definition context_of (s : Aligner.step) : context :=
  mk_context (Aligner.start_shot s) (Aligner.previous_word s)
    (Aligner.end_shot s) (Aligner.next_word s).

(** Two shots, and four words with a pause of seven seconds before the
    third. *)
Definition two_shots : list Shot.t := [Samples.shot 0 5; Samples.shot 5 100].
Definition paused_words : list Word.t :=
  [Samples.word 0 1; Samples.word 2 3; Samples.word 10 11; Samples.word 12 13].

End AlignerWalk.

(** * Properties *)

(** ** The aligner *)

Module AlignerFacts.
Import Aligner AlignerSpec.

Lemma bind_Ok {A B : Type} (m : result A) (f : A -> result B) (b : B) :
  m ≫= f = Ok b -> exists a, m = Ok a /\ f a = Ok b.
Proof. destruct m as [a|e]; simpl; [eauto | discriminate]. Qed.

Lemma index_Ok {A : Type} (xs : list A) (i : nat) (x : A) :
  index xs i = Ok x <-> xs !! i = Some x.
Proof.
  unfold index. destruct (xs !! i); split; intros E; congruence.
Qed.

(** *** The shot loops *)

Lemma skip_shots_Ok (past : time -> bool) (rest : list Shot.t) (i j : nat) :
  skip_shots past rest i = Ok j ->
  (i <= j)%nat
  /\ (exists sh, rest !! (j - i)%nat = Some sh /\ past (Shot.end_time sh) = false)
  /\ (forall k sh, (k < j - i)%nat -> rest !! k = Some sh ->
        past (Shot.end_time sh) = true).
Proof.
  revert i. induction rest as [|sh rest IH]; intros i; simpl; [discriminate|].
  destruct (past (Shot.end_time sh)) eqn:Hp.
  - intros E. destruct (IH _ E) as (Hle & (sh' & Hl & Hf) & Hbefore).
    split; [lia|]. split.
    + exists sh'. replace (j - i)%nat with (S (j - S i)) by lia. auto.
    + intros k sh0 Hk. destruct k as [|k]; simpl.
      * intros [= <-]. exact Hp.
      * apply Hbefore. lia.
  - intros [= <-]. split; [lia|]. split.
    + exists sh. rewrite Nat.sub_diag. auto.
    + intros k sh0 Hk. lia.
Qed.

Lemma skip_shots_total (past : time -> bool) (rest : list Shot.t) (i n : nat) (sh : Shot.t) :
  rest !! n = Some sh -> past (Shot.end_time sh) = false ->
  exists j, skip_shots past rest i = Ok j /\ (j <= i + n)%nat.
Proof.
  revert i n. induction rest as [|sh0 rest IH]; intros i n Hl Hp; [discriminate|].
  simpl. destruct (past (Shot.end_time sh0)) eqn:Hp0.
  - destruct n as [|n]; simpl in Hl.
    + injection Hl as ->. congruence.
    + destruct (IH (S i) n Hl Hp) as (j & -> & Hj). exists j. split; [done | lia].
  - exists i. split; [done | lia].
Qed.

Lemma skip_shots_from (past : time -> bool) (video_shots : list Shot.t) (i j : nat) :
  skip_shots past (drop i video_shots) i = Ok j ->
  (i <= j)%nat
  /\ (exists sh, video_shots !! j = Some sh /\ past (Shot.end_time sh) = false)
  /\ (forall k, (i <= k < j)%nat ->
        exists sh, video_shots !! k = Some sh /\ past (Shot.end_time sh) = true).
Proof.
  intros E. destruct (skip_shots_Ok _ _ _ _ E) as (Hle & (sh & Hl & Hf) & Hbefore).
  rewrite lookup_drop in Hl. replace (i + (j - i))%nat with j in Hl by lia.
  split; [done|]. split; [eauto|].
  intros k Hk.
  assert (Hlt : (k < length video_shots)%nat).
  { apply lookup_lt_Some in Hl. lia. }
  destruct (lookup_lt_is_Some_2 _ _ Hlt) as [sh' Hsh'].
  exists sh'. split; [done|].
  apply (Hbefore (k - i)%nat); [lia|].
  rewrite lookup_drop. replace (i + (k - i))%nat with k by lia. done.
Qed.

Lemma skip_shots_Raise (past : time -> bool) (rest : list Shot.t) (i : nat) (e : exn) :
  skip_shots past rest i = Raise e ->
  e = IndexError /\ Forall (fun sh => past (Shot.end_time sh) = true) rest.
Proof.
  revert i. induction rest as [|sh rest IH]; intros i; simpl.
  - intros [= <-]. split; [done | constructor].
  - destruct (past (Shot.end_time sh)) eqn:Hp; [|discriminate].
    intros E. destruct (IH _ E) as [-> Hall]. split; [done|]. by constructor.
Qed.

(** *** The word loops *)

Lemma advance_word_ge (fuel : nat) (test : nat -> bool) (i : nat) :
  (i <= advance_word fuel test i)%nat.
Proof.
  revert i. induction fuel as [|fuel IH]; intros i; simpl; [lia|].
  destruct (test i); [|lia]. specialize (IH (S i)). lia.
Qed.

Lemma advance_word_below (fuel : nat) (test : nat -> bool) (i k : nat) :
  (i <= k < advance_word fuel test i)%nat -> test k = true.
Proof.
  revert i. induction fuel as [|fuel IH]; intros i; simpl; [lia|].
  destruct (test i) eqn:Ht; [|lia].
  intros Hk. destruct (decide (k = i)) as [->|Hne]; [done|].
  apply (IH (S i)). lia.
Qed.

(** The loop leaves by its test, not by the iteration bound. *)
Lemma advance_word_exit (fuel : nat) (test : nat -> bool) (i n : nat) :
  (forall k, test k = true -> (k < n)%nat) ->
  (n <= i + fuel)%nat ->
  test (advance_word fuel test i) = false.
Proof.
  intros Hbound. revert i. induction fuel as [|fuel IH]; intros i Hn; simpl.
  - destruct (test i) eqn:Ht; [|done]. apply Hbound in Ht. lia.
  - destruct (test i) eqn:Ht; [|done]. apply IH. lia.
Qed.

Lemma advance_word_le (fuel : nat) (test : nat -> bool) (i k : nat) :
  (i <= k)%nat -> test k = false -> (advance_word fuel test i <= k)%nat.
Proof.
  intros Hik Hk.
  destruct (decide (advance_word fuel test i <= k)%nat) as [|Hgt]; [done|].
  rewrite (advance_word_below fuel test i k) in Hk; [discriminate | lia].
Qed.

Lemma advance_word_limit (fuel : nat) (test : nat -> bool) (i n : nat) :
  (forall k, test k = true -> (k + 2 < n)%nat) ->
  (advance_word fuel test i <= Nat.max i (n - 2))%nat.
Proof.
  intros Hbound.
  destruct (decide (advance_word fuel test i <= i)%nat) as [|Hgt]; [lia|].
  assert (Ht : test (advance_word fuel test i - 1)%nat = true).
  { apply (advance_word_below fuel test i). lia. }
  apply Hbound in Ht. lia.
Qed.

Lemma previous_word_test_true (words : list Word.t) (k : nat) (t : time) :
  previous_word_test words k t = true <->
  (k + 1 < length words - 1)%nat
  /\ exists w, words !! (k + 1)%nat = Some w /\ Word.endTime w < t.
Proof.
  unfold previous_word_test. rewrite andb_true_iff, Z.ltb_lt.
  destruct (words !! (k + 1)%nat) as [w|] eqn:Hw.
  - rewrite Z.ltb_lt. split.
    + intros [? ?]. split; [lia | eauto].
    + intros [? (w' & [= <-] & ?)]. split; [lia | done].
  - split; [intros [_ ?]; discriminate | intros [_ (w' & ? & _)]; discriminate].
Qed.

Lemma next_word_test_true (words : list Word.t) (k : nat) (t : time) :
  next_word_test words k t = true <->
  (k + 2 < length words)%nat
  /\ exists w, words !! k = Some w /\ Word.startTime w < t.
Proof.
  unfold next_word_test. rewrite andb_true_iff, Z.ltb_lt.
  destruct (words !! k) as [w|] eqn:Hw.
  - rewrite Z.ltb_lt. split.
    + intros [? ?]. split; [lia | eauto].
    + intros [? (w' & [= <-] & ?)]. split; [lia | done].
  - split; [intros [_ ?]; discriminate | intros [_ (w' & ? & _)]; discriminate].
Qed.

Lemma previous_word_test_bound (words : list Word.t) (t : time) (k : nat) :
  previous_word_test words k t = true -> (k + 2 < length words)%nat.
Proof. rewrite previous_word_test_true. lia. Qed.

Lemma next_word_test_bound (words : list Word.t) (t : time) (k : nat) :
  next_word_test words k t = true -> (k + 2 < length words)%nat.
Proof. rewrite next_word_test_true. lia. Qed.

(** Both word loops run to completion within [length words] iterations. *)
Lemma previous_word_loop_exit (words : list Word.t) (t : time) (i : nat) :
  previous_word_test words
    (advance_word (length words) (fun k => previous_word_test words k t) i) t = false.
Proof.
  apply (advance_word_exit _ (fun k => previous_word_test words k t) i (length words)).
  - intros k Hk. apply previous_word_test_bound in Hk. lia.
  - lia.
Qed.

Lemma next_word_loop_exit (words : list Word.t) (t : time) (i : nat) :
  next_word_test words
    (advance_word (length words) (fun k => next_word_test words k t) i) t = false.
Proof.
  apply (advance_word_exit _ (fun k => next_word_test words k t) i (length words)).
  - intros k Hk. apply next_word_test_bound in Hk. lia.
  - lia.
Qed.

(** *** One iteration, and the whole loop *)

Lemma align_line_iteration (video_shots : list Shot.t) (words : list Word.t)
    (c c' : cursor) (l : Line.t) (s : step) :
  align_line video_shots words c l = Ok (s, c') ->
  line s = l /\ iteration video_shots words c s c'.
Proof.
  unfold align_line. intros E.
  apply bind_Ok in E as (si & Hsi & E).
  apply bind_Ok in E as (sh & Hsh & E). apply index_Ok in Hsh.
  apply bind_Ok in E as (pw & Hpw & E). apply index_Ok in Hpw.
  apply bind_Ok in E as (si' & Hsi' & E).
  apply bind_Ok in E as (sh' & Hsh' & E). apply index_Ok in Hsh'.
  apply bind_Ok in E as (nw & Hnw & E). apply index_Ok in Hnw.
  injection E as <- <-. split; [done|].
  exists si. simpl. repeat (split; [done|]).
  unfold final_start, final_end, tentative_start, tentative_end,
    start_clamp_applies, end_clamp_applies; simpl.
  rewrite (Z.max_comm (Word.endTime pw)). done.
Qed.

Lemma align_from_trace (video_shots : list Shot.t) (words : list Word.t)
    (c : cursor) (transcript : list Line.t) (steps : list step) :
  align_from video_shots words c transcript = Ok steps <->
  trace video_shots words c transcript steps.
Proof.
  split.
  - revert c steps. induction transcript as [|l transcript IH]; intros c steps; simpl.
    + intros [= <-]. constructor.
    + intros E. apply bind_Ok in E as ([s c'] & Hs & E).
      apply bind_Ok in E as (steps' & Hsteps & E). injection E as <-.
      econstructor; eauto.
  - induction 1 as [|c l transcript s c' steps Hs _ IH]; simpl; [done|].
    rewrite Hs. simpl. rewrite IH. done.
Qed.

Lemma trace_lines (video_shots : list Shot.t) (words : list Word.t)
    (c : cursor) (transcript : list Line.t) (steps : list step) :
  trace video_shots words c transcript steps -> map line steps = transcript.
Proof.
  induction 1 as [|c l transcript s c' steps Hs _ IH]; simpl; [done|].
  apply align_line_iteration in Hs as [-> _]. by rewrite IH.
Qed.

(** Invariants of the cursor carry a property to every iteration. *)
Lemma trace_invariant (video_shots : list Shot.t) (words : list Word.t)
    (I : cursor -> list Line.t -> Prop) (P : step -> Prop) :
  (forall c l transcript s c',
      I c (l :: transcript) -> line s = l -> iteration video_shots words c s c' ->
      P s /\ I c' transcript) ->
  forall c transcript steps,
    I c transcript -> trace video_shots words c transcript steps -> Forall P steps.
Proof.
  intros Hstep c transcript steps HI Htrace. revert HI.
  induction Htrace as [|c l transcript s c' steps Hs _ IH]; intros HI; [constructor|].
  apply align_line_iteration in Hs as [Hl Hit].
  destruct (Hstep _ _ _ _ _ HI Hl Hit) as [HP HI']. constructor; auto.
Qed.

Lemma trace_Forall (video_shots : list Shot.t) (words : list Word.t) (P : step -> Prop) :
  (forall c s c', iteration video_shots words c s c' -> P s) ->
  forall c transcript steps,
    trace video_shots words c transcript steps -> Forall P steps.
Proof.
  intros Hstep c transcript steps.
  apply (trace_invariant video_shots words (fun _ _ => True) P); [|done].
  intros; split; eauto.
Qed.

Lemma match_with_video_shots_steps (video_shots : list Shot.t)
    (transcript : list Line.t) (words : list Word.t) (out : list Line.t) :
  match_with_video_shots video_shots transcript words = Ok out <->
  exists steps, align_steps video_shots transcript words = Ok steps
                /\ out = map adjusted steps.
Proof.
  unfold match_with_video_shots. split.
  - intros E. apply bind_Ok in E as (steps & Hs & [= <-]). eauto.
  - intros (steps & -> & ->). done.
Qed.

(** What one iteration writes. *)
Lemma iteration_adjusted (video_shots : list Shot.t) (words : list Word.t)
    (c c' : cursor) (s : step) :
  iteration video_shots words c s c' ->
  Line.startTime (adjusted s) = final_start s
  /\ Line.endTime (adjusted s) = final_end s
  /\ Line.duration (adjusted s) = Some (final_end s - final_start s).
Proof.
  intros (si & _ & _ & _ & _ & _ & _ & _ & _ & _ & ->). done.
Qed.

(** *** Ascending words and word spans *)

Lemma words_ascending_lt (words : list Word.t) (d i : nat) (w w' : Word.t) :
  words_ascending words ->
  words !! i = Some w -> words !! (i + S d)%nat = Some w' ->
  Word.endTime w <= Word.startTime w'.
Proof.
  intros [Hpos Hadj]. revert w'. induction d as [|d IH]; intros w' Hw Hw'.
  - replace (i + 1)%nat with (S i) in Hw' by lia. eauto.
  - assert (Hlt : (i + S d < length words)%nat).
    { apply lookup_lt_Some in Hw'. lia. }
    destruct (lookup_lt_is_Some_2 _ _ Hlt) as [wm Hwm].
    specialize (IH wm Hw Hwm).
    replace (i + S (S d))%nat with (S (i + S d)) in Hw' by lia.
    pose proof (Hadj _ _ _ Hwm Hw').
    assert (Word.startTime wm <= Word.endTime wm).
    { apply Hpos. by eapply list_elem_of_lookup_2. }
    lia.
Qed.

Lemma words_ascending_before (words : list Word.t) (i j : nat) (w w' : Word.t) :
  words_ascending words -> (i < j)%nat ->
  words !! i = Some w -> words !! j = Some w' ->
  Word.endTime w <= Word.startTime w'.
Proof.
  intros Hasc Hij Hw Hw'.
  apply (words_ascending_lt words (j - i - 1) i); [done | done |].
  replace (i + S (j - i - 1))%nat with j by lia. done.
Qed.

Lemma words_ascending_span (words : list Word.t) (i j : nat) (w w' : Word.t) :
  words_ascending words -> (i <= j)%nat ->
  words !! i = Some w -> words !! j = Some w' ->
  Word.startTime w <= Word.endTime w'.
Proof.
  intros Hasc Hij Hw Hw'.
  assert (Word.startTime w <= Word.endTime w).
  { apply Hasc. by eapply list_elem_of_lookup_2. }
  assert (Word.startTime w' <= Word.endTime w').
  { apply Hasc. by eapply list_elem_of_lookup_2. }
  destruct (decide (i = j)) as [->|Hne].
  - rewrite Hw in Hw'. injection Hw' as <-. done.
  - pose proof (words_ascending_before words i j w w' Hasc ltac:(lia) Hw Hw'). lia.
Qed.

(** One iteration on the span of [words[a..b]], entered with the word
    cursor at or before [a]: both boundaries move outwards and the cursor
    ends at or before [b + 1]. *)
Lemma iteration_on_word_span (video_shots : list Shot.t) (words : list Word.t)
    (c c' : cursor) (s : step) (a b : nat) (wa wb : Word.t) :
  words_ascending words ->
  (word_index c <= a <= b)%nat -> (b + 1 < length words)%nat ->
  words !! a = Some wa -> words !! b = Some wb ->
  Line.startTime (line s) = Word.startTime wa ->
  Line.endTime (line s) = Word.endTime wb ->
  iteration video_shots words c s c' ->
  final_start s <= Line.startTime (line s)
  /\ Line.startTime (line s) <= Line.endTime (line s)
  /\ Line.endTime (line s) <= final_end s
  /\ (word_index c' <= S b)%nat.
Proof.
  intros Hasc Hab Hb Hwa Hwb Hstart Hend (si & _ & _ & Hp & Hpw & _ & _ & Hn & Hnw & Hc' & _).
  set (test_p := fun i => previous_word_test words i (Line.startTime (line s))) in *.
  set (test_n := fun i => next_word_test words i (Line.endTime (line s))) in *.
  assert (Hka : (previous_index s <= a)%nat).
  { rewrite Hp. apply advance_word_le; [lia|].
    unfold test_p. destruct (previous_word_test _ _ _) eqn:Ht; [|done].
    apply previous_word_test_true in Ht as (_ & w & Hw & Hlt).
    replace (a + 1)%nat with (S a) in Hw by lia.
    pose proof (proj2 Hasc _ _ _ Hwa Hw).
    assert (Word.startTime w <= Word.endTime w).
    { apply Hasc. by eapply list_elem_of_lookup_2. }
    assert (Word.startTime wa <= Word.endTime wa).
    { apply Hasc. by eapply list_elem_of_lookup_2. }
    lia. }
  assert (Hmb : (next_index s <= S b)%nat).
  { rewrite Hn. apply advance_word_le; [lia|].
    unfold test_n. destruct (next_word_test _ _ _) eqn:Ht; [|done].
    apply next_word_test_true in Ht as (_ & w & Hw & Hlt).
    pose proof (proj2 Hasc _ _ _ Hwb Hw). lia. }
  assert (Hexit : test_n (next_index s) = false).
  { rewrite Hn. apply next_word_loop_exit. }
  pose proof (words_ascending_span words a b wa wb Hasc ltac:(lia) Hwa Hwb) as Hspan.
  split; [|split; [lia|split; [|lia]]].
  - unfold final_start, start_clamp_applies, tentative_start.
    destruct (Word.startTime (previous_word s) =? Line.startTime (line s)) eqn:Heq;
      simpl; [lia|].
    apply Z.eqb_neq in Heq.
    destruct (decide (previous_index s = a)) as [Hk|Hk].
    + rewrite Hk, Hwa in Hpw. injection Hpw as Hpw. rewrite <- Hpw in Heq. lia.
    + pose proof (words_ascending_before words (previous_index s) a _ _ Hasc
                    ltac:(lia) Hpw Hwa). lia.
  - unfold final_end, end_clamp_applies, tentative_end.
    destruct (Word.endTime (next_word s) =? Line.endTime (line s)) eqn:Heq;
      simpl; [lia|].
    apply Z.eqb_neq in Heq.
    assert (Line.endTime (line s) <= Word.startTime (next_word s)); [|lia].
    destruct (decide (next_index s = S b)) as [Hm|Hm].
    + rewrite Hm in Hnw. pose proof (proj2 Hasc _ _ _ Hwb Hnw). lia.
    + destruct (decide (next_index s = b)) as [Hm'|Hm'].
      { rewrite Hm', Hwb in Hnw. injection Hnw as Hnw. rewrite <- Hnw in Heq. lia. }
      destruct (Z_lt_le_dec (Word.startTime (next_word s)) (Line.endTime (line s)))
        as [Hlt|Hge]; [|done].
      assert (Ht : test_n (next_index s) = true); [|congruence].
      apply next_word_test_true. split; [lia | eauto].
Qed.

(** *** When the aligner returns *)

Lemma skip_shots_reaches_last (past : time -> bool) (video_shots : list Shot.t)
    (i : nat) (last_shot : Shot.t) :
  last video_shots = Some last_shot -> (i < length video_shots)%nat ->
  past (Shot.end_time last_shot) = false ->
  exists j sh, skip_shots past (drop i video_shots) i = Ok j
               /\ video_shots !! j = Some sh /\ (j < length video_shots)%nat.
Proof.
  intros Hlast Hi Hpast. rewrite last_lookup in Hlast.
  destruct (skip_shots_total past (drop i video_shots) i
              (length video_shots - 1 - i) last_shot) as (j & Hj & Hle).
  - rewrite lookup_drop.
    replace (i + (length video_shots - 1 - i))%nat with (pred (length video_shots))
      by lia. done.
  - done.
  - destruct (skip_shots_from _ _ _ _ Hj) as (_ & (sh & Hsh & _) & _).
    exists j, sh. split; [done|]. split; [done|]. by eapply lookup_lt_Some.
Qed.

Lemma align_line_total (video_shots : list Shot.t) (words : list Word.t)
    (c : cursor) (l : Line.t) (last_shot : Shot.t) :
  last video_shots = Some last_shot ->
  (shot_index c < length video_shots)%nat ->
  (word_index c < length words)%nat ->
  Line.startTime l < Shot.end_time last_shot ->
  Line.endTime l <= Shot.end_time last_shot ->
  exists s c', align_line video_shots words c l = Ok (s, c')
               /\ (shot_index c' < length video_shots)%nat
               /\ (word_index c' < length words)%nat.
Proof.
  intros Hlast Hsi Hwi Hstart Hend. unfold align_line.
  destruct (skip_shots_reaches_last (fun e => e <=? Line.startTime l)
              video_shots (shot_index c) last_shot Hlast Hsi)
    as (si & sh & Esi & Hsh & Hsi'); [by apply Z.leb_gt|].
  unfold skip_shots_start. rewrite Esi. simpl.
  apply index_Ok in Hsh. rewrite Hsh. simpl.
  set (k := advance_word _ _ (word_index c)).
  assert (Hk : (k < length words)%nat).
  { pose proof (advance_word_limit (length words)
      (fun i => previous_word_test words i (Line.startTime l))
      (word_index c) (length words) (previous_word_test_bound words _)).
    fold k in H. lia. }
  destruct (lookup_lt_is_Some_2 _ _ Hk) as [pw Hpw].
  apply index_Ok in Hpw. rewrite Hpw. simpl.
  destruct (skip_shots_reaches_last (fun e => e <? Line.endTime l)
              video_shots si last_shot Hlast Hsi')
    as (si' & sh' & Esi' & Hsh' & Hsi''); [by apply Z.ltb_ge|].
  unfold skip_shots_end. rewrite Esi'. simpl.
  apply index_Ok in Hsh'. rewrite Hsh'. simpl.
  set (m := advance_word _ _ k).
  assert (Hm : (m < length words)%nat).
  { pose proof (advance_word_limit (length words)
      (fun i => next_word_test words i (Line.endTime l))
      k (length words) (next_word_test_bound words _)).
    fold m in H. lia. }
  destruct (lookup_lt_is_Some_2 _ _ Hm) as [nw Hnw].
  apply index_Ok in Hnw. rewrite Hnw. simpl.
  eexists _, _. split; [reflexivity|]. simpl. done.
Qed.

(** With a non-empty word list and shots that reach every segment, the
    aligner returns. *)
Lemma align_from_total (video_shots : list Shot.t) (words : list Word.t)
    (transcript : list Line.t) (c : cursor) :
  shots_reach video_shots transcript ->
  (shot_index c < length video_shots)%nat ->
  (word_index c < length words)%nat ->
  exists steps, align_from video_shots words c transcript = Ok steps.
Proof.
  intros (last_shot & Hlast & Hreach). revert c.
  induction Hreach as [|l transcript [Hs He] _ IH]; intros c Hsi Hwi; simpl.
  - by eexists.
  - destruct (align_line_total video_shots words c l last_shot)
      as (s & c' & -> & Hsi' & Hwi'); try done.
    simpl. destruct (IH c' Hsi' Hwi') as (steps & ->). simpl. by eexists.
Qed.

Lemma align_from_word_spans (video_shots : list Shot.t) (words : list Word.t)
    (last_shot : Shot.t) :
  words_ascending words -> last video_shots = Some last_shot ->
  forall lo transcript, word_spans words lo transcript ->
  Forall (fun l => Line.startTime l < Shot.end_time last_shot
                   /\ Line.endTime l <= Shot.end_time last_shot) transcript ->
  forall c, (word_index c <= lo)%nat -> (shot_index c < length video_shots)%nat ->
  exists steps,
    align_from video_shots words c transcript = Ok steps
    /\ Forall2 (fun l l' =>
         Line.startTime l' <= Line.startTime l
         /\ Line.startTime l <= Line.endTime l
         /\ Line.endTime l <= Line.endTime l'
         /\ exists d, Line.duration l' = Some d /\ 0 <= d)
       transcript (map adjusted steps).
Proof.
  intros Hasc Hlast lo transcript Hspans.
  induction Hspans as [lo|lo a b wa wb l transcript Hab Hb Hwa Hwb Hstart Hend _ IH];
    intros Hreach c Hwi Hsi; simpl.
  - exists []. split; [done | constructor].
  - apply Forall_cons in Hreach as [[Hs He] Hreach].
    destruct (align_line_total video_shots words c l last_shot)
      as (s & c' & Es & Hsi' & _); try done; [lia|].
    rewrite Es. simpl.
    destruct (align_line_iteration _ _ _ _ _ _ Es) as [Hl Hit].
    destruct (iteration_adjusted _ _ _ _ _ Hit) as (Has & Hae & Had).
    rewrite <- Hl in Hstart, Hend.
    assert (Hcab : (word_index c <= a <= b)%nat) by lia.
    destruct (iteration_on_word_span _ _ _ _ _ a b wa wb Hasc
                Hcab Hb Hwa Hwb Hstart Hend Hit) as (H1 & H2 & H3 & H4).
    destruct (IH Hreach c' H4 Hsi') as (steps & -> & Hall). simpl.
    eexists. split; [reflexivity|]. simpl. constructor; [|done].
    rewrite Has, Hae, Had, <- Hl. repeat split; try lia.
    eexists. split; [done | lia].
Qed.

(** *** Iterations that leave the boundaries where they were *)

Lemma iteration_stable (video_shots : list Shot.t) (words : list Word.t)
    (c c' : cursor) (s : step) :
  iteration video_shots words c s c' ->
  (Line.startTime (adjusted s) = Line.startTime (line s) <-> start_stable s)
  /\ (Line.endTime (adjusted s) = Line.endTime (line s) <-> end_stable s).
Proof.
  intros Hit. destruct (iteration_adjusted _ _ _ _ _ Hit) as (-> & -> & _).
  unfold start_stable, end_stable, final_start, final_end,
    tentative_start, tentative_end.
  destruct (start_clamp_applies s), (end_clamp_applies s); lia.
Qed.

Lemma trace_stable (video_shots : list Shot.t) (words : list Word.t)
    (c : cursor) (transcript : list Line.t) (steps : list step) :
  trace video_shots words c transcript steps ->
  map times (map adjusted steps) = map times transcript
  <-> Forall (fun s => start_stable s /\ end_stable s) steps.
Proof.
  induction 1 as [|c l transcript s c' steps Hs _ IH]; simpl.
  - split; [constructor | done].
  - apply align_line_iteration in Hs as [<- Hit].
    destruct (iteration_stable _ _ _ _ _ Hit) as [Hstart Hend].
    rewrite Forall_cons, <- IH, <- Hstart, <- Hend. unfold times. split.
    + intros [= -> -> ->]. done.
    + intros [[-> ->] ->]. done.
Qed.

End AlignerFacts.

(** ** The run of the aligner is the walk of the spec *)

Module AlignerWalkFacts.
Import Aligner AlignerSpec AlignerFacts AlignerWalk.

(** Where the four loops of one iteration leave the cursors. *)
Lemma iteration_cursors (video_shots : list Shot.t) (words : list Word.t)
    (c c' : cursor) (s : step) :
  iteration video_shots words c s c' ->
  exists j,
    shot_cursor_after_start video_shots (shot_index c) (Line.startTime (line s)) j
    /\ video_shots !! j = Some (start_shot s)
    /\ word_cursor_after_start words (word_index c) (Line.startTime (line s))
         (previous_index s)
    /\ words !! previous_index s = Some (previous_word s)
    /\ shot_cursor_after_end video_shots j (Line.endTime (line s)) (shot_index c')
    /\ video_shots !! shot_index c' = Some (end_shot s)
    /\ word_cursor_after_end words (previous_index s) (Line.endTime (line s))
         (next_index s)
    /\ words !! next_index s = Some (next_word s)
    /\ word_index c' = next_index s.
Proof.
  intros (si & Hsi & Hsh & Hp & Hpw & Hsi' & Hsh' & Hn & Hnw & Hc' & _).
  exists si.
  apply skip_shots_from in Hsi as (Hle & (sh & Hsh0 & Hpast) & Hbefore).
  apply skip_shots_from in Hsi' as (Hle' & (sh' & Hsh0' & Hpast') & Hbefore').
  set (test_p := fun i => previous_word_test words i (Line.startTime (line s))) in *.
  set (test_n := fun i => next_word_test words i (Line.endTime (line s))) in *.
  split; [|split; [done|split; [|split; [done|split; [|split; [done|split;
    [|split; [done | done]]]]]]]].
  - split; [done|]. split.
    + intros k Hk. destruct (Hbefore k Hk) as (sh0 & Hl0 & Hp0).
      exists sh0. split; [done|]. by apply Z.leb_le.
    + exists sh. split; [done|]. by apply Z.leb_gt.
  - split; [rewrite Hp; apply advance_word_ge|]. split; [|split].
    + intros i Hi. apply previous_word_test_true.
      apply (advance_word_below (length words) test_p (word_index c)).
      by rewrite <- Hp.
    + rewrite <- previous_word_test_true, Hp.
      unfold test_p. rewrite previous_word_loop_exit. done.
    + rewrite Hp. apply advance_word_limit. apply previous_word_test_bound.
  - split; [done|]. split.
    + intros k Hk. destruct (Hbefore' k Hk) as (sh0 & Hl0 & Hp0).
      exists sh0. split; [done|]. by apply Z.ltb_lt.
    + exists sh'. split; [done|]. by apply Z.ltb_ge.
  - split; [rewrite Hn; apply advance_word_ge|]. split; [|split].
    + intros i Hi.
      assert (Ht : next_word_test words i (Line.endTime (line s)) = true).
      { apply (advance_word_below (length words) test_n (previous_index s)).
        by rewrite <- Hn. }
      apply next_word_test_true in Ht as (Hlt & Hw). split; [lia | done].
    + intros (Hlt & Hw).
      assert (Ht : next_word_test words (next_index s) (Line.endTime (line s)) = true).
      { apply next_word_test_true. split; [lia | done]. }
      rewrite Hn in Ht. unfold test_n in Ht.
      rewrite next_word_loop_exit in Ht. discriminate.
    + rewrite Hn. apply advance_word_limit. apply next_word_test_bound.
Qed.

(** What one iteration writes is what spec 4.1 gives in its context. *)
Lemma iteration_clip_as_specified (video_shots : list Shot.t) (words : list Word.t)
    (c c' : cursor) (s : step) :
  iteration video_shots words c s c' ->
  clip_as_specified (context_of s) (line s) (adjusted s).
Proof.
  intros (si & _ & _ & _ & _ & _ & _ & _ & _ & _ & ->). reflexivity.
Qed.

Lemma walk_impl (video_shots : list Shot.t) (words : list Word.t)
    (R R' : context -> Line.t -> Line.t -> Prop) :
  (forall ctx l l', R ctx l l' -> R' ctx l l') ->
  forall i k transcript out,
    walk video_shots words R i k transcript out ->
    walk video_shots words R' i k transcript out.
Proof.
  intros HR i k transcript out Hwalk.
  induction Hwalk; econstructor; eauto.
Qed.

Lemma trace_walk (video_shots : list Shot.t) (words : list Word.t)
    (c : cursor) (transcript : list Line.t) (steps : list step) :
  trace video_shots words c transcript steps ->
  walk video_shots words clip_as_specified (shot_index c) (word_index c)
    transcript (map adjusted steps).
Proof.
  induction 1 as [c|c l transcript s c' steps Hs _ IH]; simpl; [constructor|].
  apply align_line_iteration in Hs as [<- Hit].
  destruct (iteration_cursors _ _ _ _ _ Hit)
    as (j & Hj & Hsh & Hk & Hpw & Hj' & Hsh' & Hk' & Hnw & Hc').
  rewrite Hc' in IH.
  apply (walk_cons video_shots words clip_as_specified _ _ _ _ _ _
           j (previous_index s) (shot_index c') (next_index s) (context_of s));
    try done.
  by eapply iteration_clip_as_specified.
Qed.

(** Every result of the aligner is the result of the walk of spec 4.1
    from the start of both timelines. *)
Lemma aligner_walks (video_shots : list Shot.t) (transcript : list Line.t)
    (words : list Word.t) (out : list Line.t) :
  match_with_video_shots video_shots transcript words = Ok out ->
  walk video_shots words clip_as_specified 0 0 transcript out.
Proof.
  intros E. apply match_with_video_shots_steps in E as (steps & Hsteps & ->).
  apply align_from_trace in Hsteps.
  exact (trace_walk video_shots words (mk_cursor 0 0) transcript steps Hsteps).
Qed.

(** The walk leaves no choice: the cursors it describes are the ones the
    loops reach, so the code returns every list the walk relates to the
    transcript. *)
Lemma skip_shots_unique (past : time -> bool) (video_shots : list Shot.t)
    (i j : nat) :
  (i <= j)%nat ->
  (forall k, (i <= k < j)%nat ->
     exists sh, video_shots !! k = Some sh /\ past (Shot.end_time sh) = true) ->
  (exists sh, video_shots !! j = Some sh /\ past (Shot.end_time sh) = false) ->
  skip_shots past (drop i video_shots) i = Ok j.
Proof.
  intros Hle Hbefore (sh & Hsh & Hpast).
  destruct (skip_shots_total past (drop i video_shots) i (j - i) sh)
    as (j0 & E & Hj0); [|done|].
  { rewrite lookup_drop. by replace (i + (j - i))%nat with j by lia. }
  destruct (skip_shots_from _ _ _ _ E) as (Hij0 & (sh0 & Hsh0 & Hpast0) & _).
  destruct (decide (j0 = j)) as [->|Hne]; [done|].
  destruct (Hbefore j0 ltac:(lia)) as (sh1 & Hsh1 & Hpast1). congruence.
Qed.

Lemma advance_word_unique (fuel : nat) (test : nat -> bool) (i k : nat) :
  (i <= k)%nat ->
  (forall m, (i <= m < k)%nat -> test m = true) ->
  test k = false ->
  test (advance_word fuel test i) = false ->
  advance_word fuel test i = k.
Proof.
  intros Hle Hbelow Hk Hexit.
  pose proof (advance_word_le fuel test i k Hle Hk) as Hr.
  pose proof (advance_word_ge fuel test i) as Hi.
  destruct (decide (advance_word fuel test i = k)) as [|Hne]; [done|].
  rewrite Hbelow in Hexit; [discriminate | lia].
Qed.

Lemma walk_align_from (video_shots : list Shot.t) (words : list Word.t)
    (i k : nat) (transcript out : list Line.t) :
  walk video_shots words clip_as_specified i k transcript out ->
  exists steps, align_from video_shots words (mk_cursor i k) transcript = Ok steps
                /\ map adjusted steps = out.
Proof.
  induction 1 as [|i k l l' transcript out j k0 j' k' ctx
                    Hj Hsh Hk Hpw Hj' Hsh' Hk' Hnw Hclip _ (steps & IH & Hout)].
  { exists []. done. }
  assert (E1 : skip_shots_start video_shots i (Line.startTime l) = Ok j).
  { destruct Hj as (Hle & Hbefore & (sh & Hl & Hlt)).
    apply skip_shots_unique; [done| |].
    - intros m Hm. destruct (Hbefore m Hm) as (sh0 & ? & ?).
      exists sh0. split; [done|]. by apply Z.leb_le.
    - exists sh. split; [done|]. by apply Z.leb_gt. }
  assert (E2 : advance_word (length words)
                 (fun m => previous_word_test words m (Line.startTime l)) k = k0).
  { destruct Hk as (Hle & Hbelow & Hstop & _).
    apply advance_word_unique; [done| | |].
    - intros m Hm. apply previous_word_test_true. by apply Hbelow.
    - destruct (previous_word_test words k0 (Line.startTime l)) eqn:Ht; [|done].
      apply previous_word_test_true in Ht. done.
    - apply previous_word_loop_exit. }
  assert (E3 : skip_shots_end video_shots j (Line.endTime l) = Ok j').
  { destruct Hj' as (Hle & Hbefore & (sh & Hl & Hlt)).
    apply skip_shots_unique; [done| |].
    - intros m Hm. destruct (Hbefore m Hm) as (sh0 & ? & ?).
      exists sh0. split; [done|]. by apply Z.ltb_lt.
    - exists sh. split; [done|]. by apply Z.ltb_ge. }
  assert (E4 : advance_word (length words)
                 (fun m => next_word_test words m (Line.endTime l)) k0 = k').
  { destruct Hk' as (Hle & Hbelow & Hstop & _).
    apply advance_word_unique; [done| | |].
    - intros m Hm. apply next_word_test_true.
      destruct (Hbelow m Hm) as [? ?]. split; [lia | done].
    - destruct (next_word_test words k' (Line.endTime l)) eqn:Ht; [|done].
      apply next_word_test_true in Ht as [? ?]. exfalso. apply Hstop.
      split; [lia | done].
    - apply next_word_loop_exit. }
  apply index_Ok in Hsh, Hpw, Hsh', Hnw.
  exists (mk_step l (startShot ctx) k0 (prevWord ctx) (endShot ctx) k' (nextWord ctx) l'
          :: steps).
  split; [|simpl; by rewrite Hout].
  cbn [align_from]. unfold align_line. cbn [shot_index word_index].
  rewrite E1. cbn [mbind]. simpl. rewrite Hsh. simpl. rewrite E2, Hpw. simpl.
  rewrite E3. simpl. rewrite Hsh'. simpl. rewrite E4, Hnw. simpl.
  rewrite IH. simpl. rewrite Hclip.
  unfold specified_start, specified_end, specified_tentative_start,
    specified_tentative_end.
  rewrite (Z.max_comm (Word.endTime (prevWord ctx))). reflexivity.
Qed.

(** The aligner returns exactly the lists the walk of spec 4.1 relates to
    the transcript, from the start of both timelines. *)
Lemma aligner_is_the_walk (video_shots : list Shot.t) (transcript : list Line.t)
    (words : list Word.t) (out : list Line.t) :
  match_with_video_shots video_shots transcript words = Ok out <->
  walk video_shots words clip_as_specified 0 0 transcript out.
Proof.
  split; [apply aligner_walks|].
  intros Hwalk. apply walk_align_from in Hwalk as (steps & E & <-).
  apply match_with_video_shots_steps. exists steps. done.
Qed.

Lemma clip_as_specified_snapped (ctx : context) (l l' : Line.t) :
  clip_as_specified ctx l l' -> snapped_up_to_clamps ctx l l'.
Proof.
  intros ->. unfold snapped_up_to_clamps, specified_start, specified_end. simpl.
  unfold specified_tentative_start, specified_tentative_end.
  destruct (Word.startTime (prevWord ctx) =? Line.startTime l) eqn:Hs;
  destruct (Word.endTime (nextWord ctx) =? Line.endTime l) eqn:He; simpl;
    rewrite ?Z.eqb_eq, ?Z.eqb_neq in *; lia.
Qed.

End AlignerWalkFacts.

Module AlignerTheorems.
Import Aligner AlignerSpec AlignerFacts Samples.
Import AlignerWalk AlignerWalkFacts.

(** C10. Throughout alignment the word cursor never exceeds
    [max(0, len(words) - 2)]: the previous word and the next word of
    every segment are read at an index within that limit, so for a word
    list of length at least 2 neither is ever the final word, whose
    timestamps therefore clamp no boundary. *)
Theorem word_cursor_never_reaches_last_word (video_shots : list Shot.t)
    (transcript : list Line.t) (words : list Word.t) (steps : list step) :
  align_steps video_shots transcript words = Ok steps ->
  Forall (fun s =>
    Z.of_nat (previous_index s) <= word_cursor_limit words
    /\ Z.of_nat (next_index s) <= word_cursor_limit words
    /\ words !! previous_index s = Some (previous_word s)
    /\ words !! next_index s = Some (next_word s)
    /\ ((2 <= length words)%nat ->
        previous_index s <> (length words - 1)%nat
        /\ next_index s <> (length words - 1)%nat)) steps.
Proof.
  intros E. apply align_from_trace in E. revert E.
  apply (trace_invariant video_shots words
           (fun c _ => Z.of_nat (word_index c) <= word_cursor_limit words)).
  - intros c l rest s c' Hc _ Hit.
    destruct Hit as (si & _ & _ & Hp & Hpw & _ & _ & Hn & Hnw & Hc' & _).
    unfold word_cursor_limit in *.
    pose proof (advance_word_limit (length words)
      (fun i => previous_word_test words i (Line.startTime (line s)))
      (word_index c) (length words) (previous_word_test_bound words _)) as Hp'.
    rewrite <- Hp in Hp'.
    pose proof (advance_word_limit (length words)
      (fun i => next_word_test words i (Line.endTime (line s)))
      (previous_index s) (length words) (next_word_test_bound words _)) as Hn'.
    rewrite <- Hn in Hn'.
    rewrite Hc'. repeat split; try done; lia.
  - unfold word_cursor_limit. simpl. lia.
Qed.

Lemma word_cursor_never_reaches_last_word_witness :
  align_steps one_shot two_clips six_words = Ok two_clips_steps
  /\ Forall (fun s =>
       Z.of_nat (previous_index s) <= word_cursor_limit six_words
       /\ Z.of_nat (next_index s) <= word_cursor_limit six_words
       /\ six_words !! previous_index s = Some (previous_word s)
       /\ six_words !! next_index s = Some (next_word s)
       /\ ((2 <= length six_words)%nat ->
           previous_index s <> (length six_words - 1)%nat
           /\ next_index s <> (length six_words - 1)%nat)) two_clips_steps.
Proof.
  split; [reflexivity|].
  apply (word_cursor_never_reaches_last_word one_shot two_clips six_words).
  reflexivity.
Defined.

(** Facts about the sample timelines. *)

Ltac each_index i :=
  simpl in *;
  first [ discriminate
        | destruct i as [|i];
          [simpl in *; simplify_eq; simpl; lia | each_index i] ].

Ltac each_element H :=
  repeat (apply elem_of_cons in H as [->|H]; [simpl; lia|]);
  by apply elem_of_nil in H.

Lemma one_shot_ascending : shots_ascending one_shot.
Proof.
  split; [intros sh Hsh; each_element Hsh|].
  intros i sh sh' H1 H2. unfold one_shot in *. each_index i.
Qed.

Lemma six_words_ascending : words_ascending six_words.
Proof.
  split; [intros w Hw; each_element Hw|].
  intros i w w' H1 H2. unfold six_words in *. each_index i.
Qed.

Lemma two_clips_ordered : segments_ordered two_clips.
Proof. repeat (constructor; simpl; try lia). Qed.

Lemma two_clips_covered :
  shots_cover one_shot two_clips /\ words_cover six_words two_clips.
Proof.
  split; [split|].
  - exists (shot 0 100). split; [done|]. repeat (constructor; simpl; try lia).
  - exists (shot 0 100). split; [done|]. repeat (constructor; simpl; try lia).
  - exists (word 0 1), (word 10 11). split; [done|]. split; [done|].
    repeat (constructor; simpl; try lia).
Qed.

Lemma two_clips_word_spans : word_spans six_words 0 two_clips.
Proof.
  apply (word_spans_cons six_words 0 1 1 (word 2 3) (word 2 3)); simpl; try done; try lia.
  apply (word_spans_cons six_words 2 2 2 (word 4 5) (word 4 5)); simpl; try done; try lia.
  constructor.
Qed.



(** C3, as stated, fails: the third word of [paused_words], a clip from
    10 to 11, lies in the second of two shots, which starts at 5.  The
    word under the cursor is the second word, from 2 to 3; it does not
    start at 10, so the clamp of line 83 applies, but its end lies before
    the tentative start 5: the adjusted start is 5, neither the end of the
    previous word nor the original start. *)
Lemma clamp_can_leave_the_shot_start :
  shots_ascending two_shots /\ words_ascending paused_words
  /\ segments_ordered [clip 10 11]
  /\ shots_cover two_shots [clip 10 11] /\ words_cover paused_words [clip 10 11]
  /\ match_with_video_shots two_shots [clip 10 11] paused_words
     = Ok [aligned 5 100]
  /\ walk two_shots paused_words clip_as_specified 0 0 [clip 10 11] [aligned 5 100]
  /\ (forall ctx,
       walk two_shots paused_words (fun ctx' _ _ => ctx' = ctx) 0 0
         [clip 10 11] [aligned 5 100] ->
       prevWord ctx = word 2 3
       /\ Word.startTime (prevWord ctx) <> Line.startTime (clip 10 11)
       /\ Line.startTime (aligned 5 100) <> Word.endTime (prevWord ctx)
       /\ Line.startTime (aligned 5 100) <> Line.startTime (clip 10 11)).
Proof.
  split.
  { split; [intros sh Hsh; unfold two_shots in Hsh; each_element Hsh|].
    intros i sh sh' H1 H2. unfold two_shots in *. each_index i. }
  split.
  { split; [intros w Hw; unfold paused_words in Hw; each_element Hw|].
    intros i w w' H1 H2. unfold paused_words in *. each_index i. }
  split; [repeat (constructor; simpl; try lia)|].
  split.
  { split; [exists (shot 5 100) | exists (shot 0 5)]; (split; [done|]);
      repeat (constructor; simpl; try lia). }
  split.
  { exists (word 0 1), (word 12 13). split; [done|]. split; [done|].
    repeat (constructor; simpl; try lia). }
  split; [reflexivity|].
  split; [by apply aligner_walks|].
  intros ctx Hwalk.
  inversion Hwalk; subst.
  match goal with
  | Hk : word_cursor_after_start _ _ _ ?k, Hpw : _ !! ?k = Some (prevWord _) |- _ =>
      rename Hk into Hcursor; rename Hpw into Hword; rename k into at_start
  end.
  assert (at_start = 1)%nat as ->.
  { destruct Hcursor as (_ & Hbelow & Hstop & _). simpl in *.
    destruct at_start as [|[|k]]; [|done|].
    - exfalso. apply Hstop. split; [lia|].
      exists (word 2 3). simpl. split; [done | lia].
    - exfalso. destruct (Hbelow 1%nat ltac:(lia)) as (_ & w & Hw & Hlt).
      simpl in Hw. injection Hw as <-. simpl in Hlt. lia. }
  simpl in Hword. injection Hword as <-.
  simpl. repeat split; try done; lia.
Qed.

(** C3, amended. For every segment, in the order of the transcript and
    with [prevWord], [nextWord] and the shots being those under the two
    cursors of the single forward pass: the adjusted start is at or before
    the original start, except when [prevWord.start] differs from the
    original start and [prevWord.end] lies after the tentative start
    [min(start, shot.start)], in which case the adjusted start is
    [prevWord.end].  Whenever [prevWord.start] differs from the original
    start, the adjusted start is [prevWord.end] or the tentative start and
    is never earlier than [prevWord.end]; otherwise it is the tentative
    start.  Symmetrically the adjusted end is at or after the original end
    except when it is clamped to [nextWord.start], and is never later than
    [nextWord.start] whenever [nextWord.end] differs from the original
    end. *)
Theorem snapping_is_monotonic_up_to_word_clamps (video_shots : list Shot.t)
    (transcript : list Line.t) (words : list Word.t) (out : list Line.t) :
  match_with_video_shots video_shots transcript words = Ok out ->
  walk video_shots words snapped_up_to_clamps 0 0 transcript out.
Proof.
  intros E. apply aligner_walks in E. revert E. apply walk_impl.
  apply clip_as_specified_snapped.
Qed.

Lemma snapping_is_monotonic_up_to_word_clamps_witness :
  match_with_video_shots two_shots [clip 10 11] paused_words = Ok [aligned 5 100]
  /\ walk two_shots paused_words snapped_up_to_clamps 0 0 [clip 10 11]
       [aligned 5 100].
Proof.
  split; [reflexivity|].
  apply (snapping_is_monotonic_up_to_word_clamps two_shots [clip 10 11]
           paused_words).
  reflexivity.
Defined.

(** C5, as stated, fails: the second and the third word of [six_words],
    two ordered, non-overlapping segments inside the only shot, come out
    as [1, 4] and [0, 6].  The second segment starts at the start of the
    word under the cursor, so its start is not clamped and snaps back to
    the start of the shot, before the first segment. *)
Lemma alignment_does_not_preserve_order :
  shots_ascending one_shot /\ words_ascending six_words
  /\ segments_ordered two_clips
  /\ shots_cover one_shot two_clips /\ words_cover six_words two_clips
  /\ match_with_video_shots one_shot two_clips six_words
     = Ok [aligned 1 4; aligned 0 6]
  /\ ~ segments_ordered [aligned 1 4; aligned 0 6]
  /\ ~ Line.startTime (aligned 1 4) <= Line.startTime (aligned 0 6).
Proof.
  split; [apply one_shot_ascending|]. split; [apply six_words_ascending|].
  split; [apply two_clips_ordered|].
  split; [apply two_clips_covered|]. split; [apply two_clips_covered|].
  split; [reflexivity|]. split.
  - intros Hord. inversion Hord as [|l rest Hle Hall Hrest]; subst.
    apply Forall_cons in Hall as [Hlt _]. simpl in Hlt. lia.
  - simpl. lia.
Qed.

(** The guard [len(words) - 2] of the second word loop keeps the cursor
    off the last word: a clip on the last word has its end clamped to the
    start of the word before it, and its duration is negative. *)
Lemma last_word_clip_has_negative_duration :
  match_with_video_shots one_shot [clip 10 11] six_words
  = Ok [Line.mk "" 9 8 (Some (-1))].
Proof. reflexivity. Qed.

(** C5, amended. If the words are ascending and do not overlap, the
    segments are the spans of ascending, disjoint runs of words none of
    which contains the last word, and the last shot reaches every segment,
    then the aligner returns, and for every segment the adjusted start is
    at or before the original start and the adjusted end at or after the
    original end; so the adjusted end is at or after the adjusted start
    and the duration is not negative. *)
Theorem word_spans_snap_outwards (video_shots : list Shot.t)
    (transcript : list Line.t) (words : list Word.t) :
  words_ascending words ->
  word_spans words 0 transcript ->
  shots_reach video_shots transcript ->
  exists out,
    match_with_video_shots video_shots transcript words = Ok out
    /\ Forall2 (fun l l' =>
         Line.startTime l' <= Line.startTime l
         /\ Line.startTime l <= Line.endTime l
         /\ Line.endTime l <= Line.endTime l'
         /\ exists d, Line.duration l' = Some d /\ 0 <= d)
       transcript out.
Proof.
  intros Hasc Hspans (last_shot & Hlast & Hreach).
  assert (Hlen : (0 < length video_shots)%nat).
  { destruct video_shots; [discriminate | simpl; lia]. }
  destruct (align_from_word_spans video_shots words last_shot Hasc Hlast
              0%nat transcript Hspans Hreach (mk_cursor 0 0))
    as (steps & Hsteps & Hall); simpl; [lia | done |].
  exists (map adjusted steps). split; [|done].
  unfold match_with_video_shots, align_steps. rewrite Hsteps. done.
Qed.

Lemma word_spans_snap_outwards_witness :
  words_ascending six_words
  /\ word_spans six_words 0 two_clips
  /\ shots_reach one_shot two_clips
  /\ exists out,
      match_with_video_shots one_shot two_clips six_words = Ok out
      /\ Forall2 (fun l l' =>
           Line.startTime l' <= Line.startTime l
           /\ Line.startTime l <= Line.endTime l
           /\ Line.endTime l <= Line.endTime l'
           /\ exists d, Line.duration l' = Some d /\ 0 <= d)
         two_clips out.
Proof.
  split; [apply six_words_ascending|]. split; [apply two_clips_word_spans|].
  split; [apply two_clips_covered|].
  apply (word_spans_snap_outwards one_shot two_clips six_words).
  - apply six_words_ascending.
  - apply two_clips_word_spans.
  - apply two_clips_covered.
Defined.

(** C6, as stated, fails: a clip on the third word of [six_words] is
    aligned to [3, 6], the end of the second word and the start of the
    fourth; aligned again, its start moves to [1].  The first word loop
    compares with a strict [<], so on the second run the cursor stays on
    the first word, whose end is the new clamp. *)
Lemma alignment_is_not_idempotent :
  shots_ascending one_shot /\ words_ascending six_words
  /\ segments_ordered [clip 4 5]
  /\ shots_cover one_shot [clip 4 5] /\ words_cover six_words [clip 4 5]
  /\ match_with_video_shots one_shot [clip 4 5] six_words = Ok [aligned 3 6]
  /\ match_with_video_shots one_shot [aligned 3 6] six_words = Ok [aligned 1 6]
  /\ map times [aligned 1 6] <> map times [aligned 3 6].
Proof.
  split; [apply one_shot_ascending|]. split; [apply six_words_ascending|].
  split; [repeat (constructor; simpl; try lia)|].
  split; [|split].
  - split; exists (shot 0 100); (split; [done|]);
      repeat (constructor; simpl; try lia).
  - exists (word 0 1), (word 10 11). split; [done|]. split; [done|].
    repeat (constructor; simpl; try lia).
  - split; [reflexivity|]. split; [reflexivity|]. discriminate.
Qed.

(** C6, amended. Alignment is not idempotent.  A run of the aligner,
    in particular a run on its own output, leaves every start and end
    unchanged exactly when every segment is stable in that run: the shot
    under the cursor does not start before the segment start and the word
    under the cursor starts at it or ends at or before it, or the start
    clamp applies and that word ends exactly at the segment start; and
    symmetrically for the end. *)
Theorem boundaries_unchanged_iff_stable (video_shots : list Shot.t)
    (transcript : list Line.t) (words : list Word.t) (out : list Line.t) :
  match_with_video_shots video_shots transcript words = Ok out ->
  exists steps,
    align_steps video_shots transcript words = Ok steps
    /\ out = map adjusted steps
    /\ (map times out = map times transcript
        <-> Forall (fun s => start_stable s /\ end_stable s) steps).
Proof.
  intros E. apply match_with_video_shots_steps in E as (steps & Hsteps & ->).
  exists steps. split; [done|]. split; [done|].
  apply align_from_trace in Hsteps. by eapply trace_stable.
Qed.

Lemma boundaries_unchanged_iff_stable_witness :
  match_with_video_shots one_shot [aligned 1 6] six_words = Ok [aligned 1 6]
  /\ exists steps,
      align_steps one_shot [aligned 1 6] six_words = Ok steps
      /\ [aligned 1 6] = map adjusted steps
      /\ (map times [aligned 1 6] = map times [aligned 1 6]
          <-> Forall (fun s => start_stable s /\ end_stable s) steps).
Proof.
  split; [reflexivity|].
  apply (boundaries_unchanged_iff_stable one_shot [aligned 1 6] six_words).
  reflexivity.
Defined.

End AlignerTheorems.

(** ** The request handler *)

Module ServiceFacts.
Import Service.

Section Handler.
Context `{Collaborators}.

(** The two transitions of the convergence loop. *)
Lemma loop_body_too_short (e : loop_env) (s : loop_state) (w : world) :
  duration s < min_duration e ->
  let text := make_prompt (full_text e) (user_prompt e) in
  loop_body e s w
  = Done (mk_loop_state (temperature s) (duration s)
            (llm_reply (length (llm_calls w)) text None))
         (call w text None).
Proof.
  intros Hlt. unfold loop_body. apply Z.ltb_lt in Hlt. rewrite Hlt. done.
Qed.

Lemma loop_body_not_too_short (e : loop_env) (s : loop_state) (w : world) (d : time) :
  min_duration e <= duration s ->
  let text := make_prompt (shortened_text s) (user_prompt e) in
  let reply := llm_reply (length (llm_calls w)) text None in
  calculate_duration reply (transcript_words e) (video_shots e)
    (input_transcript e) (language e) = Ok d ->
  loop_body e s w
  = Done (mk_loop_state (PrimFloat.add (temperature s) 0.1%float) d reply)
         (call w text None).
Proof.
  intros Hge text reply Hd. unfold loop_body.
  apply Z.ltb_ge in Hge. rewrite Hge.
  unfold mbind, M_bind, send_transcript_to_llm, lift. simpl.
  fold text. fold reply. rewrite Hd. done.
Qed.

(** Once the duration is below the minimum the loop never leaves: every
    iteration sends the full text again and tests the same duration and
    the same temperature. *)
Lemma convergence_loop_too_short (fuel : nat) (e : loop_env) (s : loop_state) (w : world) :
  PrimFloat.ltb (temperature s) 0.6%float = true ->
  duration s < min_duration e ->
  exists w',
    convergence_loop fuel e s w = Diverged w'
    /\ llm_calls w'
       = llm_calls w
         ++ repeat (make_prompt (full_text e) (user_prompt e), None) fuel
    /\ uploads w' = uploads w.
Proof.
  intros Ht Hd. revert s w Ht Hd.
  induction fuel as [|fuel IH]; intros s w Ht Hd.
  - exists w. simpl. unfold loop_test. rewrite Ht.
    apply Z.ltb_lt in Hd. rewrite Hd, orb_true_r. simpl.
    rewrite app_nil_r. done.
  - simpl. unfold loop_test. rewrite Ht.
    pose proof Hd as Hd'. apply Z.ltb_lt in Hd'. rewrite Hd', orb_true_r. simpl.
    unfold mbind at 1, M_bind. rewrite (loop_body_too_short e s w Hd).
    destruct (IH (mk_loop_state (temperature s) (duration s)
                    (llm_reply (length (llm_calls w))
                       (make_prompt (full_text e) (user_prompt e)) None))
                 (call w (make_prompt (full_text e) (user_prompt e)) None) Ht Hd)
      as (w' & -> & Hcalls & Huploads).
    exists w'. split; [done|]. split; [|done].
    rewrite Hcalls. simpl. rewrite <- app_assoc. done.
Qed.

(** The other branch does end: as long as no text comes out shorter than
    the minimum, the temperature climbs from 0.2 to 0.6 in four steps. *)
Lemma halts_at_ceiling (e : loop_env) (t : float) :
  PrimFloat.ltb t 0.6%float = false ->
  forall fuel s w, temperature s = t -> halts_within e fuel s w 0.
Proof.
  intros Ht fuel s w Hs. exists w. split; [|lia]. left. exists s.
  destruct fuel; simpl; unfold loop_test; rewrite Hs, Ht; done.
Qed.

Lemma convergence_loop_not_too_short (fuel : nat) (e : loop_env) (s : loop_state)
    (w : world) :
  min_duration e <= duration s ->
  let text := make_prompt (shortened_text s) (user_prompt e) in
  let reply := llm_reply (length (llm_calls w)) text None in
  convergence_loop (S fuel) e s w
  = if loop_test e s then
      match calculate_duration reply (transcript_words e) (video_shots e)
              (input_transcript e) (language e) with
      | Ok d =>
          convergence_loop fuel e
            (mk_loop_state (PrimFloat.add (temperature s) 0.1%float) d reply)
            (call w text None)
      | Raise x => Raised x (call w text None)
      end
    else Done s w.
Proof.
  intros Hd text reply. simpl. destruct (loop_test e s); [|done].
  unfold mbind at 1, M_bind.
  destruct (calculate_duration reply _ _ _ _) as [d|x] eqn:Hcalc.
  - rewrite (loop_body_not_too_short e s w d Hd Hcalc). done.
  - unfold loop_body. apply Z.ltb_ge in Hd. rewrite Hd.
    unfold mbind, M_bind, send_transcript_to_llm, lift.
    fold text. fold reply. rewrite Hcalc. done.
Qed.

Lemma halts_one_step_earlier (e : loop_env) (n : nat) (t : float) :
  (forall text d,
      calculate_duration text (transcript_words e) (video_shots e)
        (input_transcript e) (language e) = Ok d ->
      min_duration e <= d) ->
  (forall fuel s w, (n <= fuel)%nat ->
      temperature s = PrimFloat.add t 0.1%float -> min_duration e <= duration s ->
      halts_within e fuel s w n) ->
  forall fuel s w, (S n <= fuel)%nat ->
    temperature s = t -> min_duration e <= duration s ->
    halts_within e fuel s w (S n).
Proof.
  intros Hnever IH fuel s w Hfuel Hs Hd.
  destruct fuel as [|fuel]; [lia|].
  unfold halts_within. rewrite (convergence_loop_not_too_short fuel e s w Hd).
  set (text := make_prompt (shortened_text s) (user_prompt e)).
  set (reply := llm_reply (length (llm_calls w)) text None).
  destruct (loop_test e s).
  - destruct (calculate_duration reply _ _ _ _) as [d|x] eqn:Hcalc.
    + destruct (IH fuel (mk_loop_state (PrimFloat.add (temperature s) 0.1%float)
                            d reply) (call w text None))
        as (w' & Hends & Hlen); [lia | simpl; by rewrite Hs | simpl; eauto |].
      exists w'. split; [exact Hends|].
      unfold call in Hlen. simpl in Hlen. rewrite length_app in Hlen.
      simpl in Hlen. lia.
    + exists (call w text None). split; [right; by eexists|].
      unfold call. simpl. rewrite length_app. simpl. lia.
  - exists w. split; [left; by eexists | lia].
Qed.

Lemma halts_within_four_when_never_too_short (e : loop_env) (fuel : nat)
    (s : loop_state) (w : world) :
  (forall text d,
      calculate_duration text (transcript_words e) (video_shots e)
        (input_transcript e) (language e) = Ok d ->
      min_duration e <= d) ->
  (4 <= fuel)%nat -> temperature s = 0.2%float -> min_duration e <= duration s ->
  halts_within e fuel s w 4.
Proof.
  intros Hnever. revert fuel s w.
  do 4 (apply halts_one_step_earlier; [exact Hnever|]).
  intros fuel s w _ Hs _. revert fuel s w Hs.
  apply halts_at_ceiling. reflexivity.
Qed.

(** The first attempt of the automated branch, when its text is too
    short. *)
Lemma automated_too_short (fuel : nat) (data : Request.t)
    (max_duration min_duration : time) (transcript_words : list Word.t)
    (video_shots : list Shot.t) (language : Language) (w : world) (d : time) :
  let text :=
    make_prompt (join newline (map TranscriptLine.text (Request.transcript data)))
      (Request.prompt data) in
  let reply := llm_reply (length (llm_calls w)) text None in
  String.eqb reply blocked = false ->
  calculate_duration reply transcript_words video_shots
    (Request.transcript data) language = Ok d ->
  d < min_duration ->
  exists w',
    automated fuel data max_duration min_duration transcript_words video_shots
      language w = Diverged w'
    /\ llm_calls w' = llm_calls w ++ repeat (text, None) (S fuel)
    /\ uploads w' = uploads w.
Proof.
  intros text reply Hnb Hd Hlt. unfold automated.
  unfold mbind at 1, M_bind, send_transcript_to_llm. fold text. fold reply.
  rewrite Hnb. unfold mbind at 1, M_bind, lift. rewrite Hd.
  set (e := mk_loop_env _ _ _ _ _ _ _ _).
  set (s := mk_loop_state _ _ _).
  destruct (convergence_loop_too_short fuel e s (call w text None))
    as (w' & Hloop & Hcalls & Huploads); [reflexivity | done |].
  exists w'. unfold mbind, M_bind. rewrite Hloop. split; [done|]. split; [|done].
  rewrite Hcalls. simpl. rewrite <- app_assoc. done.
Qed.

(** The handler in terms of its automated branch. *)
Lemma summarize_transcript_automated (fuel : nat) (data : Request.t) (w : world) :
  Request.version data = PStr "automated" ->
  summarize_transcript fuel data w
  = let '(max_duration, min_duration, language_code) := read_bounds data in
    let language :=
      if bool_decide (language_code = PStr "th-TH") then Thai else DefaultLanguage in
    let transcript_words := concat (map TranscriptLine.words (Request.transcript data)) in
    let video_shots := get_video_shots (Request.filename data) in
    match automated fuel data max_duration min_duration transcript_words
            video_shots language w with
    | Done (inl returned) w' => Done returned w'
    | Done (inr (full_text, shortened_text)) w' =>
        finish data transcript_words video_shots language full_text
          shortened_text w'
    | Raised e w' => Raised e w'
    | Diverged w' => Diverged w'
    end.
Proof.
  intros Hv. unfold summarize_transcript. rewrite Hv.
  destruct (read_bounds data) as [[max_duration min_duration] language_code].
  rewrite (bool_decide_eq_true_2 (PStr "automated" = PStr "automated")) by done.
  rewrite (bool_decide_eq_false_2 (PStr "automated" = PStr "topic")) by done.
  unfold mbind at 1, M_bind.
  destruct (automated _ _ _ _ _ _ _ w) as [[r|[ft st]] w'|e w'|w']; done.
Qed.

(** The check of line 160: when the first attempt of the automated branch
    is the blocked sentinel, the handler returns the error value at once:
    one call to the model, nothing written. *)
Lemma first_attempt_blocked_is_returned (fuel : nat) (data : Request.t) (w : world) :
  Request.version data = PStr "automated" ->
  let text :=
    make_prompt (join newline (map TranscriptLine.text (Request.transcript data)))
      (Request.prompt data) in
  llm_reply (length (llm_calls w)) text None = blocked ->
  summarize_transcript fuel data w
  = Done (ErrorValue ValueError
            "The response was blocked due to potential violation of Responsible AI")
         (call w text None).
Proof.
  intros Hv text Hreply. rewrite summarize_transcript_automated by done.
  destruct (read_bounds data) as [[max_duration min_duration] language_code].
  unfold automated. unfold mbind at 1, M_bind, send_transcript_to_llm.
  fold text. rewrite Hreply. done.
Qed.

(** The branches and the tail of the handler either raise or return
    segments: only line 161 returns an error value. *)
Lemma finish_returns_segments (data : Request.t) (transcript_words : list Word.t)
    (video_shots : list Shot.t) (language : Language)
    (full_text shortened_text : option string) (w w' : world) (r : response) :
  finish data transcript_words video_shots language full_text shortened_text w
  = Done r w' ->
  exists segments, r = Segments segments.
Proof.
  unfold finish, read_local.
  destruct full_text as [ft|]; [|discriminate].
  destruct shortened_text as [st|]; [|discriminate].
  unfold mbind, M_bind, mret, M_ret, upload_summary, lift,
    upload_summary_transformation. simpl.
  destruct (Aligner.match_with_video_shots _ _ _) as [segments|e]; [|discriminate].
  intros [= <- _]. by eexists.
Qed.

Lemma topic_never_returns_an_error_value (fuel : nat) (data : Request.t)
    (w w' : world) (r : response) :
  Request.version data = PStr "topic" ->
  summarize_transcript fuel data w = Done r w' ->
  exists segments, r = Segments segments.
Proof.
  intros Hv. unfold summarize_transcript. rewrite Hv.
  destruct (read_bounds data) as [[max_duration min_duration] language_code].
  rewrite (bool_decide_eq_false_2 (PStr "topic" = PStr "automated")) by done.
  rewrite (bool_decide_eq_true_2 (PStr "topic" = PStr "topic")) by done.
  unfold mbind at 1, M_bind, mret at 1, M_ret.
  unfold mbind at 1, M_bind.
  destruct (topic data w) as [[ft st] w1|e w1|w1]; try discriminate.
  apply finish_returns_segments.
Qed.

End Handler.
End ServiceFacts.

Module ServiceTheorems.
Import Service ServiceFacts Samples ServiceSamples.

(** C1 fails on the code: the branch [duration < min_duration] of the
    convergence loop assigns neither [duration] nor [temperature], so the
    test of the loop never changes.  With a first attempt of 5 seconds
    against a minimum of 10, the loop is still running after any number
    [fuel] of iterations, each of which has called the model once more. *)
Theorem too_short_attempt_is_retried_without_end (fuel : nat) :
  exists w,
    summarize_transcript (H := scripted short_then_long) fuel automated_request
      nothing_yet = Diverged w
    /\ llm_calls w = repeat ("a b c d", None) (S fuel)
    /\ uploads w = [].
Proof.
  rewrite (summarize_transcript_automated (H := scripted short_then_long))
    by reflexivity.
  destruct (automated_too_short (H := scripted short_then_long) fuel
              automated_request 40 10
              [word 0 5; word 5 45; word 45 60; word 60 70] [shot 0 100]
              sample_language nothing_yet 5)
    as (w & Hw & Hcalls & Huploads); [reflexivity | reflexivity | lia |].
  exists w. split; [|done].
  change (read_bounds (H := scripted short_then_long) automated_request)
    with (40, 10, PStr "en-US").
  cbv beta iota.
  change (bool_decide (PStr "en-US" = PStr "th-TH")) with false.
  cbv beta iota zeta. simpl in Hw |- *. rewrite Hw. done.
Qed.

(** C2 fails on the code in its last sentence: the transition for a
    duration below the minimum does not re-evaluate the duration.  In
    scenario C the first attempt lasts 5 seconds and the retry on the full
    text returns a text of 45 seconds; the loop keeps the duration 5 and the
    temperature 0.2, so its next transition is again a retry on the full
    text, not the tightening of the 45-second text at temperature 0.3. *)
Theorem scenario_C_duration_is_not_recomputed :
  let e := sample_loop_env in
  let first_attempt := mk_loop_state 0.2%float 5 "short" in
  let retried := mk_loop_state 0.2%float 5 "long" in
  let w1 := call nothing_yet "a b c d" None in
  let w2 := call w1 "a b c d" None in
  let w3 := call w2 "a b c d" None in
  calculate_duration "short" (transcript_words e) (video_shots e)
    (input_transcript e) (language e) = Ok 5
  /\ calculate_duration "long" (transcript_words e) (video_shots e)
       (input_transcript e) (language e) = Ok 45
  /\ loop_test e first_attempt = true
  /\ loop_body (H := scripted short_then_long) e first_attempt w1 = Done retried w2
  /\ loop_test e retried = true
  /\ loop_body (H := scripted short_then_long) e retried w2 = Done retried w3.
Proof. repeat split; reflexivity. Qed.

(** C7 fails on the code: the blocked sentinel is only looked for in the
    first reply of the automated branch.  In topic mode a model that is
    blocked on every call yields segments built from the sentinel, and so
    does the automated branch when the sentinel is the reply to a retry;
    in both cases the sentinel is written to the store as the shortened
    text and no error value is returned. *)
Theorem blocked_reply_is_not_reported :
  let sentinel := "The response was blocked" in
  let both := sentinel +:+ newline +:+ newline +:+ sentinel in
  (forall fuel, exists w,
     summarize_transcript (H := scripted always_blocked) fuel topic_request
       nothing_yet
     = Done (Segments [Line.mk both 5 45 (Some 40)]) w
     /\ length (llm_calls w) = 3%nat
     /\ uploads w
        = [upload_summary_doc "Line 0: a b c d" both;
           upload_summary_transformation_doc (PStr "video")
             "Line 0: a b c d" both both])
  /\ (exists w,
       summarize_transcript (H := scripted long_then_blocked) 4 automated_request
         nothing_yet
       = Done (Segments [Line.mk sentinel 5 45 (Some 40)]) w
       /\ llm_calls w = [("a b c d", None); ("long", None)]
       /\ uploads w
          = [upload_summary_doc "a b c d" sentinel;
             upload_summary_transformation_doc (PStr "video")
               "a b c d" sentinel sentinel]).
Proof.
  split.
  - intros fuel. eexists. split; [vm_compute; reflexivity|]. split; reflexivity.
  - eexists. split; [vm_compute; reflexivity|]. split; reflexivity.
Qed.

Section AnyCollaborators.
Context `{Collaborators}.

(** C8. Input defaulting is all-or-nothing: when [float()] fails on the
    ['max'] or on the ['min'] field, [max_duration], [min_duration] and
    [language_code] are all three set to the defaults 40, 10 and "en-US",
    whatever the request holds for the other two fields. *)
Theorem defaulting_is_all_or_nothing (data : Request.t) :
  (exists e, py_float (Request.max data) = Raise e)
  \/ (exists e, py_float (Request.min data) = Raise e) ->
  read_bounds data = (40, 10, PStr "en-US").
Proof.
  unfold read_bounds. intros [[e He]|[e He]]; rewrite He; simpl.
  - done.
  - destruct (py_float (Request.max data)); done.
Qed.

(** C9. A request whose version is neither "automated" nor "topic"
    returns no segments: [full_text] and [shortened_text] are assigned in
    neither branch, and the call of [upload_summary] raises
    UnboundLocalError before the model is called or anything is written. *)
Theorem unknown_version_raises_unbound_local (fuel : nat) (data : Request.t)
    (w : world) :
  Request.version data <> PStr "automated" ->
  Request.version data <> PStr "topic" ->
  summarize_transcript fuel data w = Raised UnboundLocalError w
  /\ forall segments w',
       summarize_transcript fuel data w <> Done (Segments segments) w'.
Proof.
  intros Hauto Htopic.
  assert (E : summarize_transcript fuel data w = Raised UnboundLocalError w).
  { unfold summarize_transcript.
    destruct (read_bounds data) as [[max_duration min_duration] language_code].
    rewrite (bool_decide_eq_false_2 _ Hauto), (bool_decide_eq_false_2 _ Htopic).
    reflexivity. }
  split; [done|]. intros segments w'. rewrite E. discriminate.
Qed.

End AnyCollaborators.

Lemma defaulting_is_all_or_nothing_witness :
  let data := sample_request (PStr "automated") (PNum 30) PNone (PStr "th-TH") in
  ((exists e, py_float (H := scripted always_blocked) (Request.max data) = Raise e)
   \/ (exists e, py_float (H := scripted always_blocked) (Request.min data) = Raise e))
  /\ read_bounds (H := scripted always_blocked) data = (40, 10, PStr "en-US").
Proof.
  assert (Hmin : (exists e, py_float (H := scripted always_blocked)
                              (PNum 30) = Raise e)
                 \/ (exists e, py_float (H := scripted always_blocked)
                                 PNone = Raise e)).
  { right. exists TypeError. reflexivity. }
  split; [exact Hmin|].
  exact (defaulting_is_all_or_nothing (H := scripted always_blocked)
           (sample_request (PStr "automated") (PNum 30) PNone (PStr "th-TH")) Hmin).
Defined.

Lemma unknown_version_raises_unbound_local_witness :
  let data := sample_request (PStr "manual") (PNum 40) (PNum 10) (PStr "en-US") in
  Request.version data <> PStr "automated"
  /\ Request.version data <> PStr "topic"
  /\ summarize_transcript (H := scripted always_blocked) 4 data nothing_yet
     = Raised UnboundLocalError nothing_yet
  /\ forall segments w',
       summarize_transcript (H := scripted always_blocked) 4 data nothing_yet
       <> Done (Segments segments) w'.
Proof.
  assert (Hauto : PStr "manual" <> PStr "automated") by discriminate.
  assert (Htopic : PStr "manual" <> PStr "topic") by discriminate.
  split; [exact Hauto|]. split; [exact Htopic|].
  exact (unknown_version_raises_unbound_local (H := scripted always_blocked) 4
           (sample_request (PStr "manual") (PNum 40) (PNum 10) (PStr "en-US"))
           nothing_yet Hauto Htopic).
Defined.

End ServiceTheorems.

(** ** Further properties of the aligner *)

Module AlignerExtras.
Import Aligner AlignerSpec AlignerFacts MoreSpec Samples.

Lemma bind_Raise {A B : Type} (m : result A) (f : A -> result B) (e : exn) :
  m ≫= f = Raise e -> m = Raise e \/ exists a, m = Ok a /\ f a = Raise e.
Proof. destruct m as [a|e']; simpl; [eauto | intros [= <-]; auto]. Qed.

Lemma index_Raise {A : Type} (xs : list A) (i : nat) (e : exn) :
  index xs i = Raise e -> e = IndexError /\ xs !! i = None.
Proof. unfold index. destruct (xs !! i); [discriminate | by intros [= <-]]. Qed.

Lemma align_line_Raise (video_shots : list Shot.t) (words : list Word.t)
    (c : cursor) (l : Line.t) (e : exn) :
  align_line video_shots words c l = Raise e -> e = IndexError.
Proof.
  unfold align_line, skip_shots_start, skip_shots_end. intros E.
  apply bind_Raise in E as [E|(si & _ & E)]; [by apply skip_shots_Raise in E as [-> _]|].
  apply bind_Raise in E as [E|(sh & _ & E)]; [by apply index_Raise in E as [-> _]|].
  apply bind_Raise in E as [E|(pw & _ & E)]; [by apply index_Raise in E as [-> _]|].
  apply bind_Raise in E as [E|(si' & _ & E)]; [by apply skip_shots_Raise in E as [-> _]|].
  apply bind_Raise in E as [E|(sh' & _ & E)]; [by apply index_Raise in E as [-> _]|].
  apply bind_Raise in E as [E|(nw & _ & E)]; [by apply index_Raise in E as [-> _]|].
  discriminate.
Qed.

Lemma align_from_Raise (video_shots : list Shot.t) (words : list Word.t)
    (transcript : list Line.t) (c : cursor) (e : exn) :
  align_from video_shots words c transcript = Raise e -> e = IndexError.
Proof.
  revert c. induction transcript as [|l transcript IH]; intros c; simpl; [discriminate|].
  destruct (align_line video_shots words c l) as [[s c']|e1] eqn:E1; simpl.
  - destruct (align_from video_shots words c' transcript) as [steps|e2] eqn:E2; simpl;
      [discriminate|].
    intros [= <-]. by eapply IH.
  - intros [= <-]. by eapply align_line_Raise.
Qed.

(** From a property of every iteration to a relation between the input
    and the output of the aligner. *)
Lemma steps_Forall2 (R : Line.t -> Line.t -> Prop) (steps : list step) :
  Forall (fun s => R (line s) (adjusted s)) steps ->
  Forall2 R (map line steps) (map adjusted steps).
Proof. induction 1; simpl; constructor; done. Qed.

Lemma aligner_Forall2 (R : Line.t -> Line.t -> Prop) (video_shots : list Shot.t)
    (transcript : list Line.t) (words : list Word.t) (out : list Line.t) :
  (forall c s c', iteration video_shots words c s c' -> R (line s) (adjusted s)) ->
  match_with_video_shots video_shots transcript words = Ok out ->
  Forall2 R transcript out.
Proof.
  intros HR E. apply match_with_video_shots_steps in E as (steps & Hsteps & ->).
  apply align_from_trace in Hsteps.
  rewrite <- (trace_lines _ _ _ _ _ Hsteps). apply steps_Forall2.
  revert Hsteps. by apply trace_Forall.
Qed.

Lemma aligner_sets_duration (video_shots : list Shot.t)
    (transcript : list Line.t) (words : list Word.t) (out : list Line.t) :
  match_with_video_shots video_shots transcript words = Ok out ->
  Forall (fun l' =>
    Line.duration l' = Some (Line.endTime l' - Line.startTime l')) out.
Proof.
  intros E. apply match_with_video_shots_steps in E as (steps & Hsteps & ->).
  apply align_from_trace in Hsteps. apply Forall_fmap.
  revert Hsteps. apply trace_Forall. intros c s c' Hit. simpl.
  destruct (iteration_adjusted _ _ _ _ _ Hit) as (Hs & He & Hd).
  by rewrite Hd, He, Hs.
Qed.

Lemma match_with_video_shots_Raise (video_shots : list Shot.t)
    (transcript : list Line.t) (words : list Word.t) (e : exn) :
  match_with_video_shots video_shots transcript words = Raise e -> e = IndexError.
Proof.
  unfold match_with_video_shots, align_steps.
  destruct (align_from _ _ _ _) as [steps|e1] eqn:E1; simpl; [discriminate|].
  intros [= <-]. by eapply align_from_Raise.
Qed.

(** X2. The aligner returns one clip per input clip, in the same order and
    with the same text, and writes in each the duration [endTime -
    startTime] of its new boundaries. *)
Theorem aligner_keeps_text_and_sets_duration (video_shots : list Shot.t)
    (transcript : list Line.t) (words : list Word.t) (out : list Line.t) :
  match_with_video_shots video_shots transcript words = Ok out ->
  length out = length transcript
  /\ map Line.text out = map Line.text transcript
  /\ Forall (fun l' =>
        Line.duration l' = Some (Line.endTime l' - Line.startTime l')) out.
Proof.
  intros E.
  assert (H2 : Forall2 (fun l l' =>
                 Line.text l' = Line.text l
                 /\ Line.duration l' = Some (Line.endTime l' - Line.startTime l'))
               transcript out).
  { revert E. apply aligner_Forall2. intros c s c' (si & Hit).
    destruct Hit as (_ & _ & _ & _ & _ & _ & _ & _ & _ & ->). done. }
  clear E. split; [symmetry; by eapply Forall2_length|]. split.
  - induction H2 as [|l l' ? ? [Ht _] _ IH]; simpl; [done|]. congruence.
  - induction H2 as [|l l' ? ? [_ Hd] _ IH]; constructor; done.
Qed.

Lemma aligner_keeps_text_and_sets_duration_witness :
  match_with_video_shots one_shot two_clips six_words
  = Ok [aligned 1 4; aligned 0 6]
  /\ length [aligned 1 4; aligned 0 6] = length two_clips
  /\ map Line.text [aligned 1 4; aligned 0 6] = map Line.text two_clips
  /\ Forall (fun l' =>
        Line.duration l' = Some (Line.endTime l' - Line.startTime l'))
       [aligned 1 4; aligned 0 6].
Proof.
  split; [reflexivity|].
  apply (aligner_keeps_text_and_sets_duration one_shot two_clips six_words).
  reflexivity.
Defined.

(** X3. The aligner invents no timestamp: an adjusted start is the
    original start, the start of a shot or the end of a word, and an
    adjusted end is the original end, the end of a shot or the start of a
    word. *)
Theorem adjusted_boundaries_are_input_timestamps (video_shots : list Shot.t)
    (transcript : list Line.t) (words : list Word.t) (out : list Line.t) :
  match_with_video_shots video_shots transcript words = Ok out ->
  Forall2 (fun l l' =>
    (Line.startTime l' = Line.startTime l
     \/ Line.startTime l' ∈ map Shot.start_time video_shots
     \/ Line.startTime l' ∈ map Word.endTime words)
    /\ (Line.endTime l' = Line.endTime l
        \/ Line.endTime l' ∈ map Shot.end_time video_shots
        \/ Line.endTime l' ∈ map Word.startTime words)) transcript out.
Proof.
  apply aligner_Forall2. intros c s c' Hit.
  destruct (iteration_adjusted _ _ _ _ _ Hit) as (-> & -> & _).
  destruct Hit as (si & _ & Hsh & _ & Hpw & _ & Hsh' & _ & Hnw & _ & _).
  assert (Shot.start_time (start_shot s) ∈ map Shot.start_time video_shots).
  { apply list_elem_of_fmap_2. by eapply list_elem_of_lookup_2. }
  assert (Word.endTime (previous_word s) ∈ map Word.endTime words).
  { apply list_elem_of_fmap_2. by eapply list_elem_of_lookup_2. }
  assert (Shot.end_time (end_shot s) ∈ map Shot.end_time video_shots).
  { apply list_elem_of_fmap_2. by eapply list_elem_of_lookup_2. }
  assert (Word.startTime (next_word s) ∈ map Word.startTime words).
  { apply list_elem_of_fmap_2. by eapply list_elem_of_lookup_2. }
  unfold final_start, final_end, tentative_start, tentative_end. split.
  - destruct (start_clamp_applies s).
    + destruct (Z.max_spec (Line.startTime (line s) `min` Shot.start_time (start_shot s))
                  (Word.endTime (previous_word s))) as [[_ ->]|[_ ->]]; [auto|].
      destruct (Z.min_spec (Line.startTime (line s)) (Shot.start_time (start_shot s)))
        as [[_ ->]|[_ ->]]; auto.
    + destruct (Z.min_spec (Line.startTime (line s)) (Shot.start_time (start_shot s)))
        as [[_ ->]|[_ ->]]; auto.
  - destruct (end_clamp_applies s).
    + destruct (Z.min_spec (Line.endTime (line s) `max` Shot.end_time (end_shot s))
                  (Word.startTime (next_word s))) as [[_ ->]|[_ ->]]; [|auto].
      destruct (Z.max_spec (Line.endTime (line s)) (Shot.end_time (end_shot s)))
        as [[_ ->]|[_ ->]]; auto.
    + destruct (Z.max_spec (Line.endTime (line s)) (Shot.end_time (end_shot s)))
        as [[_ ->]|[_ ->]]; auto.
Qed.

Lemma adjusted_boundaries_are_input_timestamps_witness :
  match_with_video_shots one_shot two_clips six_words
  = Ok [aligned 1 4; aligned 0 6]
  /\ Forall2 (fun l l' =>
       (Line.startTime l' = Line.startTime l
        \/ Line.startTime l' ∈ map Shot.start_time one_shot
        \/ Line.startTime l' ∈ map Word.endTime six_words)
       /\ (Line.endTime l' = Line.endTime l
           \/ Line.endTime l' ∈ map Shot.end_time one_shot
           \/ Line.endTime l' ∈ map Word.startTime six_words))
     two_clips [aligned 1 4; aligned 0 6].
Proof.
  split; [reflexivity|].
  apply (adjusted_boundaries_are_input_timestamps one_shot two_clips six_words).
  reflexivity.
Defined.

(** What every iteration of a run that returns has found. *)
Lemma iteration_found (video_shots : list Shot.t) (words : list Word.t)
    (c c' : cursor) (s : step) :
  iteration video_shots words c s c' ->
  words <> []
  /\ (exists sh, sh ∈ video_shots /\ Line.startTime (line s) < Shot.end_time sh)
  /\ (exists sh, sh ∈ video_shots /\ Line.endTime (line s) <= Shot.end_time sh).
Proof.
  intros (si & Hsi & _ & _ & Hpw & Hsi' & _).
  apply skip_shots_from in Hsi as (_ & (sh & Hsh & Hp) & _).
  apply skip_shots_from in Hsi' as (_ & (sh' & Hsh' & Hp') & _).
  split; [intros ->; discriminate|]. split.
  - exists sh. split; [by eapply list_elem_of_lookup_2 | by apply Z.leb_gt].
  - exists sh'. split; [by eapply list_elem_of_lookup_2 | by apply Z.ltb_ge].
Qed.

(** X4. The aligner checks no bound: with a clip to align, it raises
    IndexError when the word list is empty, when every shot (if any) ends
    at or before the start of some clip, or when every shot ends before
    the end of some clip. *)
Theorem uncovered_clip_raises_index_error (video_shots : list Shot.t)
    (transcript : list Line.t) (words : list Word.t) (l : Line.t) :
  l ∈ transcript ->
  words = []
  \/ Forall (fun sh => Shot.end_time sh <= Line.startTime l) video_shots
  \/ Forall (fun sh => Shot.end_time sh < Line.endTime l) video_shots ->
  match_with_video_shots video_shots transcript words = Raise IndexError.
Proof.
  intros Hl Hbad. unfold match_with_video_shots, align_steps.
  destruct (align_from video_shots words (mk_cursor 0 0) transcript)
    as [steps|e] eqn:E; simpl.
  - exfalso. apply align_from_trace in E.
    pose proof (trace_lines _ _ _ _ _ E) as Hlines.
    assert (Hall : Forall (fun s =>
      words <> []
      /\ (exists sh, sh ∈ video_shots /\ Line.startTime (line s) < Shot.end_time sh)
      /\ (exists sh, sh ∈ video_shots /\ Line.endTime (line s) <= Shot.end_time sh))
      steps).
    { revert E. apply trace_Forall. intros c s c'. apply iteration_found. }
    rewrite <- Hlines in Hl. apply list_elem_of_fmap in Hl as (s & -> & Hs).
    rewrite Forall_forall in Hall.
    destruct (Hall s Hs) as (Hw & (sh & Hsh & Hlt) & (sh' & Hsh' & Hle)).
    destruct Hbad as [->|[Hbad|Hbad]]; [done| |]; rewrite Forall_forall in Hbad.
    + specialize (Hbad sh Hsh). simpl in Hbad. lia.
    + specialize (Hbad sh' Hsh'). simpl in Hbad. lia.
  - by apply align_from_Raise in E as ->.
Qed.

Lemma uncovered_clip_raises_index_error_witness :
  clip 4 5 ∈ two_clips
  /\ (six_words = []
      \/ Forall (fun sh => Shot.end_time sh <= Line.startTime (clip 4 5)) [shot 0 4]
      \/ Forall (fun sh => Shot.end_time sh < Line.endTime (clip 4 5)) [shot 0 4])
  /\ match_with_video_shots [shot 0 4] two_clips six_words = Raise IndexError.
Proof.
  assert (Hl : clip 4 5 ∈ two_clips) by (apply list_elem_of_In; simpl; auto).
  assert (Hbad : six_words = []
      \/ Forall (fun sh => Shot.end_time sh <= Line.startTime (clip 4 5)) [shot 0 4]
      \/ Forall (fun sh => Shot.end_time sh < Line.endTime (clip 4 5)) [shot 0 4]).
  { right. left. repeat constructor. simpl. lia. }
  split; [exact Hl|]. split; [exact Hbad|].
  exact (uncovered_clip_raises_index_error [shot 0 4] two_clips six_words
           (clip 4 5) Hl Hbad).
Defined.

(** X5. With at least one word, and a last shot that ends after every
    clip start and not before any clip end, the aligner returns. *)
Theorem aligner_returns_when_shots_reach (video_shots : list Shot.t)
    (transcript : list Line.t) (words : list Word.t) :
  words <> [] ->
  shots_reach video_shots transcript ->
  exists out, match_with_video_shots video_shots transcript words = Ok out.
Proof.
  intros Hw Hreach.
  destruct (align_from_total video_shots words transcript (mk_cursor 0 0) Hreach)
    as (steps & Hsteps); simpl.
  - destruct Hreach as (last_shot & Hlast & _).
    destruct video_shots; [discriminate | simpl; lia].
  - destruct words; [done | simpl; lia].
  - exists (map adjusted steps).
    unfold match_with_video_shots, align_steps. by rewrite Hsteps.
Qed.

Lemma aligner_returns_when_shots_reach_witness :
  six_words <> []
  /\ shots_reach one_shot two_clips
  /\ exists out, match_with_video_shots one_shot two_clips six_words = Ok out.
Proof.
  assert (Hw : six_words <> []) by discriminate.
  assert (Hreach : shots_reach one_shot two_clips).
  { exists (shot 0 100). split; [reflexivity|]. repeat (constructor; simpl; try lia). }
  split; [exact Hw|]. split; [exact Hreach|].
  exact (aligner_returns_when_shots_reach one_shot two_clips six_words Hw Hreach).
Defined.

Lemma trace_word_cursor_path (video_shots : list Shot.t) (words : list Word.t)
    (c : cursor) (transcript : list Line.t) (steps : list step) :
  trace video_shots words c transcript steps ->
  Forall (fun i => (word_index c <= i)%nat) (word_cursor_path steps)
  /\ StronglySorted le (word_cursor_path steps).
Proof.
  induction 1 as [c|c l transcript s c' steps Hs _ [IHge IHsorted]]; simpl.
  - split; constructor.
  - apply align_line_iteration in Hs
      as (_ & si & _ & _ & Hp & _ & _ & _ & Hn & _ & Hc' & _).
    assert (Hcp : (word_index c <= previous_index s)%nat).
    { rewrite Hp. apply advance_word_ge. }
    assert (Hpn : (previous_index s <= next_index s)%nat).
    { rewrite Hn. apply advance_word_ge. }
    rewrite Hc' in IHge.
    assert (Hrest : Forall (fun i => (next_index s <= i)%nat) (word_cursor_path steps))
      by done.
    split.
    + constructor; [done|]. constructor; [lia|].
      eapply Forall_impl; [exact Hrest|]. simpl. lia.
    + constructor; [constructor; [done | done]|].
      constructor; [done|].
      eapply Forall_impl; [exact Hrest|]. simpl. lia.
Qed.

(** X6. The word cursor is shared by all clips and never moves back: the
    positions it takes, clip after clip, are in ascending order from 0. *)
Theorem word_cursor_never_moves_back (video_shots : list Shot.t)
    (transcript : list Line.t) (words : list Word.t) (steps : list step) :
  align_steps video_shots transcript words = Ok steps ->
  StronglySorted le (word_cursor_path steps)
  /\ length (word_cursor_path steps) = (2 * length transcript)%nat.
Proof.
  intros E. apply align_from_trace in E. split.
  - by eapply trace_word_cursor_path.
  - rewrite <- (trace_lines _ _ _ _ _ E). clear E.
    induction steps as [|s steps IH]; simpl; [done|]. rewrite IH. lia.
Qed.

Lemma word_cursor_never_moves_back_witness :
  align_steps one_shot two_clips six_words = Ok two_clips_steps
  /\ StronglySorted le (word_cursor_path two_clips_steps)
  /\ length (word_cursor_path two_clips_steps) = (2 * length two_clips)%nat.
Proof.
  split; [reflexivity|].
  apply (word_cursor_never_moves_back one_shot two_clips six_words). reflexivity.
Defined.

(** The word cursor within its limit, as an invariant of the iterations. *)
Lemma iteration_word_indices (video_shots : list Shot.t) (words : list Word.t)
    (c c' : cursor) (s : step) :
  iteration video_shots words c s c' ->
  (word_index c <= length words - 2)%nat ->
  (previous_index s <= length words - 2)%nat
  /\ (previous_index s <= next_index s <= length words - 2)%nat
  /\ word_index c' = next_index s
  /\ next_word_test words (next_index s) (Line.endTime (line s)) = false.
Proof.
  intros (si & _ & _ & Hp & _ & _ & _ & Hn & _ & Hc' & _) Hc.
  pose proof (advance_word_limit (length words)
    (fun i => previous_word_test words i (Line.startTime (line s)))
    (word_index c) (length words) (previous_word_test_bound words _)) as Hp'.
  rewrite <- Hp in Hp'.
  pose proof (advance_word_limit (length words)
    (fun i => next_word_test words i (Line.endTime (line s)))
    (previous_index s) (length words) (next_word_test_bound words _)) as Hn'.
  rewrite <- Hn in Hn'.
  assert (previous_index s <= next_index s)%nat.
  { rewrite Hn. apply advance_word_ge. }
  repeat split; try lia; try done.
  rewrite Hn. apply next_word_loop_exit.
Qed.

(** X7. A clip that ends with the last word loses it: the second word
    loop stops on the second-to-last word, and the end of the clip is
    clamped to the start of that word, at or before the start of the last
    word. *)
Theorem clip_ending_with_last_word_is_cut_back (video_shots : list Shot.t)
    (transcript : list Line.t) (words : list Word.t) (steps : list step)
    (last_word penultimate : Word.t) :
  words_ascending words ->
  words !! (length words - 1)%nat = Some last_word ->
  words !! (length words - 2)%nat = Some penultimate ->
  (2 <= length words)%nat ->
  Word.startTime last_word < Word.endTime last_word ->
  align_steps video_shots transcript words = Ok steps ->
  Forall (fun s =>
    Line.endTime (line s) = Word.endTime last_word ->
    next_word s = penultimate
    /\ Line.endTime (adjusted s) <= Word.startTime penultimate
    /\ Word.startTime penultimate <= Word.startTime last_word) steps.
Proof.
  intros Hasc Hlast Hpen Hlen Hpos E. apply align_from_trace in E. revert E.
  apply (trace_invariant video_shots words
           (fun c _ => (word_index c <= length words - 2)%nat)); [|simpl; lia].
  intros c l rest s c' Hc _ Hit.
  destruct (iteration_word_indices _ _ _ _ _ Hit Hc) as (_ & Hn & Hc' & Hexit).
  split; [|lia]. intros Hend.
  destruct (iteration_adjusted _ _ _ _ _ Hit) as (_ & -> & _).
  destruct Hit as (si & _ & _ & _ & _ & _ & _ & _ & Hnw & _).
  assert (Hpl : Word.endTime penultimate <= Word.startTime last_word).
  { apply (words_ascending_before words (length words - 2) (length words - 1));
      try done. lia. }
  assert (Hpp : Word.startTime penultimate <= Word.endTime penultimate).
  { apply Hasc. by eapply list_elem_of_lookup_2. }
  assert (Hm : next_index s = (length words - 2)%nat).
  { destruct (decide (next_index s = (length words - 2)%nat)) as [|Hne]; [done|].
    exfalso.
    assert (Ht : next_word_test words (next_index s) (Line.endTime (line s)) = true);
      [|congruence].
    apply next_word_test_true. split; [lia|].
    exists (next_word s). split; [done|].
    assert (Word.startTime (next_word s) <= Word.endTime (next_word s)).
    { apply Hasc. by eapply list_elem_of_lookup_2. }
    pose proof (words_ascending_before words (next_index s) (length words - 1)
                  _ _ Hasc ltac:(lia) Hnw Hlast).
    lia. }
  rewrite Hm, Hpen in Hnw. injection Hnw as Hnw.
  split; [done|]. split; [|lia].
  unfold final_end, end_clamp_applies. rewrite <- Hnw.
  destruct (Word.endTime penultimate =? Line.endTime (line s)) eqn:Heq.
  - apply Z.eqb_eq in Heq. lia.
  - simpl. lia.
Qed.

Lemma clip_ending_with_last_word_is_cut_back_witness :
  words_ascending six_words
  /\ six_words !! (length six_words - 1)%nat = Some (word 10 11)
  /\ six_words !! (length six_words - 2)%nat = Some (word 8 9)
  /\ (2 <= length six_words)%nat
  /\ Word.startTime (word 10 11) < Word.endTime (word 10 11)
  /\ align_steps one_shot [clip 8 11] six_words
     = Ok (steps_of (align_steps one_shot [clip 8 11] six_words))
  /\ Forall (fun s =>
       Line.endTime (line s) = Word.endTime (word 10 11) ->
       next_word s = word 8 9
       /\ Line.endTime (adjusted s) <= Word.startTime (word 8 9)
       /\ Word.startTime (word 8 9) <= Word.startTime (word 10 11))
     (steps_of (align_steps one_shot [clip 8 11] six_words)).
Proof.
  pose proof AlignerTheorems.six_words_ascending as Hasc.
  assert (Hlen : (2 <= length six_words)%nat) by (simpl; lia).
  assert (Hpos : Word.startTime (word 10 11) < Word.endTime (word 10 11))
    by (simpl; lia).
  split; [exact Hasc|]. split; [reflexivity|]. split; [reflexivity|].
  split; [exact Hlen|]. split; [exact Hpos|]. split; [reflexivity|].
  exact (clip_ending_with_last_word_is_cut_back one_shot [clip 8 11] six_words
           (steps_of (align_steps one_shot [clip 8 11] six_words))
           (word 10 11) (word 8 9) Hasc eq_refl eq_refl Hlen Hpos eq_refl).
Defined.

(** X8. With a single word the cursor cannot move: that word is the
    previous and the next word of every clip.  A clip that does not start
    with it starts, once aligned, at or after its end, and a clip that
    does not end with it ends at or before its start. *)
Theorem single_word_clamps_every_clip (video_shots : list Shot.t)
    (transcript : list Line.t) (w : Word.t) (steps : list step) :
  align_steps video_shots transcript [w] = Ok steps ->
  Forall (fun s =>
    previous_word s = w /\ next_word s = w
    /\ (Line.startTime (line s) <> Word.startTime w ->
        Word.endTime w <= Line.startTime (adjusted s))
    /\ (Line.endTime (line s) <> Word.endTime w ->
        Line.endTime (adjusted s) <= Word.startTime w)) steps.
Proof.
  intros E. apply align_from_trace in E. revert E.
  apply (trace_invariant video_shots [w]
           (fun c _ => (word_index c <= length [w] - 2)%nat)); [|simpl; lia].
  intros c l rest s c' Hc _ Hit.
  destruct (iteration_word_indices _ _ _ _ _ Hit Hc) as (Hp & Hn & Hc' & _).
  split; [|lia].
  destruct (iteration_adjusted _ _ _ _ _ Hit) as (-> & -> & _).
  destruct Hit as (si & _ & _ & _ & Hpw & _ & _ & _ & Hnw & _).
  simpl in Hp, Hn.
  replace (previous_index s) with 0%nat in Hpw by lia.
  replace (next_index s) with 0%nat in Hnw by lia.
  simpl in Hpw, Hnw. injection Hpw as Hpw. injection Hnw as Hnw.
  split; [done|]. split; [done|].
  unfold final_start, final_end, start_clamp_applies, end_clamp_applies.
  rewrite <- Hpw, <- Hnw. split.
  - intros Hne. destruct (Word.startTime w =? Line.startTime (line s)) eqn:Heq.
    + apply Z.eqb_eq in Heq. congruence.
    + simpl. lia.
  - intros Hne. destruct (Word.endTime w =? Line.endTime (line s)) eqn:Heq.
    + apply Z.eqb_eq in Heq. congruence.
    + simpl. lia.
Qed.

Lemma single_word_clamps_every_clip_witness :
  align_steps [shot 0 10] [clip 1 2] [word 0 9]
  = Ok (steps_of (align_steps [shot 0 10] [clip 1 2] [word 0 9]))
  /\ Forall (fun s =>
       previous_word s = word 0 9 /\ next_word s = word 0 9
       /\ (Line.startTime (line s) <> Word.startTime (word 0 9) ->
           Word.endTime (word 0 9) <= Line.startTime (adjusted s))
       /\ (Line.endTime (line s) <> Word.endTime (word 0 9) ->
           Line.endTime (adjusted s) <= Word.startTime (word 0 9)))
     (steps_of (align_steps [shot 0 10] [clip 1 2] [word 0 9])).
Proof.
  split; [reflexivity|].
  apply (single_word_clamps_every_clip [shot 0 10] [clip 1 2] (word 0 9)).
  reflexivity.
Defined.

(** X19. With shots that follow one another without a gap, and ordered
    clips none of which starts before the first shot, the shot cursor
    stops on the shots that enclose the boundaries of each clip: the shot
    of the start contains the start, the shot of the end contains the end,
    and before any word clamp the clip is stretched to the start of the
    first and to the end of the second. *)
Theorem clips_snap_to_enclosing_shots (video_shots : list Shot.t)
    (transcript : list Line.t) (words : list Word.t) (steps : list step) :
  shots_contiguous video_shots ->
  segments_ordered transcript ->
  shots_start_before video_shots transcript ->
  align_steps video_shots transcript words = Ok steps ->
  Forall (fun s =>
    Shot.start_time (start_shot s) <= Line.startTime (line s)
      < Shot.end_time (start_shot s)
    /\ Shot.start_time (end_shot s) <= Line.endTime (line s)
         <= Shot.end_time (end_shot s)
    /\ tentative_start s = Shot.start_time (start_shot s)
    /\ tentative_end s = Shot.end_time (end_shot s)) steps.
Proof.
  intros Hcont Hord Hfirst E. apply align_from_trace in E. revert E.
  apply (trace_invariant video_shots words
           (fun c t =>
              segments_ordered t
              /\ forall sh, video_shots !! shot_index c = Some sh ->
                   Forall (fun l => Shot.start_time sh <= Line.startTime l) t)).
  - intros c l rest s c' [Hordered Hcur] Hl Hit.
    inversion Hordered as [|l0 rest0 Hle Hlater Hrest]; subst l0 rest0.
    destruct Hit as (si & Hsi & Hsh & _ & _ & Hsi' & Hsh' & _).
    rewrite Hl in Hsi, Hsi'.
    apply skip_shots_from in Hsi as (Hcsi & (sh & Hsh0 & Hpast) & Hbefore).
    rewrite Hsh in Hsh0. injection Hsh0 as <-. apply Z.leb_gt in Hpast.
    apply skip_shots_from in Hsi' as (Hsisi' & (sh' & Hsh'0 & Hpast') & Hbefore').
    rewrite Hsh' in Hsh'0. injection Hsh'0 as <-. apply Z.ltb_ge in Hpast'.
    assert (Hstart : Shot.start_time (start_shot s) <= Line.startTime l).
    { destruct (decide (si = shot_index c)) as [->|Hne].
      - specialize (Hcur _ Hsh). by apply Forall_cons in Hcur as [? _].
      - destruct (Hbefore (si - 1)%nat ltac:(lia)) as (shk & Hshk & Hk).
        apply Z.leb_le in Hk.
        rewrite <- (Hcont (si - 1)%nat shk (start_shot s) Hshk); [done|].
        by replace (S (si - 1)) with si by lia. }
    assert (Hend : Shot.start_time (end_shot s) <= Line.endTime l).
    { destruct (decide (shot_index c' = si)) as [Heq|Hne].
      - rewrite Heq, Hsh in Hsh'. injection Hsh' as <-. lia.
      - destruct (Hbefore' (shot_index c' - 1)%nat ltac:(lia)) as (shk & Hshk & Hk).
        apply Z.ltb_lt in Hk.
        rewrite <- (Hcont (shot_index c' - 1)%nat shk (end_shot s) Hshk); [lia|].
        by replace (S (shot_index c' - 1)) with (shot_index c') by lia. }
    split; [|split; [done|]].
    + rewrite Hl. unfold tentative_start, tentative_end. rewrite Hl.
      repeat split; try lia.
    + intros sh0 Hsh0. rewrite Hsh' in Hsh0. injection Hsh0 as <-.
      eapply Forall_impl; [exact Hlater|]. simpl. intros l' Hl'. lia.
  - split; [done|]. intros sh Hsh. apply Hfirst.
    simpl in Hsh. by rewrite head_lookup.
Qed.

Lemma clips_snap_to_enclosing_shots_witness :
  shots_contiguous [shot 0 5; shot 5 12]
  /\ segments_ordered [clip 4 6]
  /\ shots_start_before [shot 0 5; shot 5 12] [clip 4 6]
  /\ align_steps [shot 0 5; shot 5 12] [clip 4 6] six_words
     = Ok (steps_of (align_steps [shot 0 5; shot 5 12] [clip 4 6] six_words))
  /\ Forall (fun s =>
       Shot.start_time (start_shot s) <= Line.startTime (line s)
         < Shot.end_time (start_shot s)
       /\ Shot.start_time (end_shot s) <= Line.endTime (line s)
            <= Shot.end_time (end_shot s)
       /\ tentative_start s = Shot.start_time (start_shot s)
       /\ tentative_end s = Shot.end_time (end_shot s))
     (steps_of (align_steps [shot 0 5; shot 5 12] [clip 4 6] six_words)).
Proof.
  assert (Hcont : shots_contiguous [shot 0 5; shot 5 12]).
  { intros i sh sh' H1 H2.
    destruct i as [|[|i]]; simpl in *; simplify_eq; done. }
  assert (Hord : segments_ordered [clip 4 6]).
  { repeat (constructor; simpl; try lia). }
  assert (Hfirst : shots_start_before [shot 0 5; shot 5 12] [clip 4 6]).
  { intros first [= <-]. repeat (constructor; simpl; try lia). }
  split; [exact Hcont|]. split; [exact Hord|]. split; [exact Hfirst|].
  split; [reflexivity|].
  exact (clips_snap_to_enclosing_shots [shot 0 5; shot 5 12] [clip 4 6] six_words
           (steps_of (align_steps [shot 0 5; shot 5 12] [clip 4 6] six_words))
           Hcont Hord Hfirst eq_refl).
Defined.

End AlignerExtras.

(** ** Further properties of the handler *)

Module ServiceExtras.
Import Aligner Service ServiceSpec ServiceFacts MoreSpec AlignerExtras.
Import Samples ServiceSamples MoreSamples.

Lemma sum_of_durations (clips : list Line.t) (a : time) :
  Forall (fun l => Line.duration l = Some (Line.endTime l - Line.startTime l)) clips ->
  foldl (fun total clip =>
           total_duration ← total;
           match Line.duration clip with
           | Some d => Ok (total_duration + d)
           | None => Raise TypeError
           end)
        (Ok a) clips
  = Ok (a + total_length clips).
Proof.
  intros Hall. revert a. induction Hall as [|l clips Hd _ IH]; intros a; simpl.
  - f_equal. lia.
  - rewrite Hd. rewrite IH. f_equal. lia.
Qed.

Lemma result_bind_Ok {A B : Type} (a : A) (f : A -> result B) : Ok a ≫= f = f a.
Proof. reflexivity. Qed.

Lemma result_bind_Raise {A B : Type} (e : exn) (f : A -> result B) :
  Raise e ≫= f = Raise e.
Proof. reflexivity. Qed.

Section Handler.
Context `{Collaborators}.

(** X9. [calculate_duration] is the sum of [endTime - startTime] over the
    aligned clips of the shortened text; it fails exactly when the aligner
    does, so never for a missing ['duration'] and only with IndexError. *)
Theorem calculate_duration_is_total_length (shortened_text : string)
    (transcript_words : list Word.t) (video_shots : list Shot.t)
    (input_transcript : list TranscriptLine.t) (language : Language) :
  calculate_duration shortened_text transcript_words video_shots
    input_transcript language
  = match match_with_video_shots video_shots
            (get_clips_from_transcript language transcript_words shortened_text
               input_transcript) transcript_words with
    | Ok out => Ok (total_length out)
    | Raise _ => Raise IndexError
    end.
Proof.
  unfold calculate_duration.
  destruct (match_with_video_shots _ _ _) as [out|e] eqn:E.
  - rewrite result_bind_Ok. rewrite <- (Z.add_0_l (total_length out)).
    apply sum_of_durations. by eapply aligner_sets_duration.
  - rewrite result_bind_Raise. by apply match_with_video_shots_Raise in E as ->.
Qed.

Lemma calculate_duration_Raise (shortened_text : string)
    (transcript_words : list Word.t) (video_shots : list Shot.t)
    (input_transcript : list TranscriptLine.t) (language : Language) (e : exn) :
  calculate_duration shortened_text transcript_words video_shots
    input_transcript language = Raise e -> e = IndexError.
Proof.
  unfold calculate_duration.
  destruct (match_with_video_shots _ _ _) as [out|e'] eqn:E.
  - rewrite result_bind_Ok. intros Hc. exfalso.
    pose proof (sum_of_durations out 0 (aligner_sets_duration _ _ _ _ E)) as Hs.
    assert (Habs : Ok (0 + total_length out) = Raise e)
      by (etrans; [symmetry; exact Hs | exact Hc]).
    discriminate.
  - rewrite result_bind_Raise. intros [= <-].
    by apply match_with_video_shots_Raise in E.
Qed.

(** *** What the pieces of the handler do to the world *)

Lemma loop_body_cases (e : loop_env) (s : loop_state) (w : world) :
  exists text,
    (text = make_prompt (full_text e) (user_prompt e)
     \/ text = make_prompt (shortened_text s) (user_prompt e))
    /\ ((exists s', loop_body e s w = Done s' (call w text None))
        \/ loop_body e s w = Raised IndexError (call w text None)).
Proof.
  unfold loop_body. destruct (duration s <? min_duration e).
  - eexists. split; [left; reflexivity|]. left. eexists. reflexivity.
  - eexists. split; [right; reflexivity|].
    unfold mbind, M_bind, send_transcript_to_llm, lift, mret, M_ret.
    destruct (calculate_duration _ _ _ _ _) as [d|x] eqn:Hd.
    + left. eexists. reflexivity.
    + right. by apply calculate_duration_Raise in Hd as ->.
Qed.

Lemma convergence_loop_effects (fuel : nat) (e : loop_env) (s : loop_state) (w : world) :
  (exists l,
      llm_calls (world_of (convergence_loop fuel e s w)) = llm_calls w ++ l
      /\ Forall (fun c => c.2 = None) l)
  /\ uploads (world_of (convergence_loop fuel e s w)) = uploads w
  /\ (forall x w', convergence_loop fuel e s w = Raised x w' -> x = IndexError).
Proof.
  revert s w. induction fuel as [|fuel IH]; intros s w; simpl.
  - destruct (loop_test e s); simpl.
    + split; [exists []; by rewrite app_nil_r|]. split; [done|]. discriminate.
    + split; [exists []; by rewrite app_nil_r|]. split; [done|]. discriminate.
  - destruct (loop_test e s); simpl.
    + unfold mbind, M_bind.
      destruct (loop_body_cases e s w) as (text & _ & [(s' & ->)| ->]).
      * destruct (IH s' (call w text None)) as ((l & Hl & Hnone) & Hup & Hexn).
        split; [|split; [done | done]].
        exists ((text, None) :: l). split; [|by constructor].
        rewrite Hl. simpl. by rewrite <- app_assoc.
      * simpl. split; [exists [(text, None)]; split; [done | by repeat constructor]|].
        split; [done|]. by intros x w' [= <- _].
    + split; [exists []; by rewrite app_nil_r|]. split; [done|]. discriminate.
Qed.

Lemma automated_run (fuel : nat) (data : Request.t)
    (max_duration min_duration : time) (transcript_words : list Word.t)
    (video_shots : list Shot.t) (language : Language) (w : world) :
  let text := automated_prompt data in
  let reply := llm_reply (length (llm_calls w)) text None in
  automated fuel data max_duration min_duration transcript_words video_shots
    language w
  = if String.eqb reply blocked then
      Done (inl (ErrorValue ValueError
        "The response was blocked due to potential violation of Responsible AI"))
        (call w text None)
    else
      match calculate_duration reply transcript_words video_shots
              (Request.transcript data) language with
      | Ok d =>
          match convergence_loop fuel
                  (mk_loop_env (automated_full_text data) (Request.prompt data)
                     max_duration min_duration transcript_words video_shots
                     (Request.transcript data) language)
                  (mk_loop_state 0.2%float d reply) (call w text None) with
          | Done s' w' =>
              Done (inr (Some (automated_full_text data), Some (shortened_text s'))) w'
          | Raised x w' => Raised x w'
          | Diverged w' => Diverged w'
          end
      | Raise x => Raised x (call w text None)
      end.
Proof.
  intros text reply. unfold automated.
  unfold mbind at 1, M_bind, send_transcript_to_llm.
  fold (automated_full_text data). fold (automated_prompt data).
  fold text. fold reply.
  destruct (String.eqb reply blocked); [done|].
  unfold mbind at 1, M_bind, lift.
  destruct (calculate_duration _ _ _ _ _) as [d|x]; [|done].
  unfold mbind, M_bind.
  destruct (convergence_loop _ _ _ _) as [[t' d' st'] w'|x w'|w']; done.
Qed.

Lemma automated_effects (fuel : nat) (data : Request.t)
    (max_duration min_duration : time) (transcript_words : list Word.t)
    (video_shots : list Shot.t) (language : Language) (w : world) :
  let o := automated fuel data max_duration min_duration transcript_words
             video_shots language w in
  (exists l,
      llm_calls (world_of o) = llm_calls w ++ (automated_prompt data, None) :: l
      /\ Forall (fun c => c.2 = None) l)
  /\ uploads (world_of o) = uploads w
  /\ (forall x w', o = Raised x w' -> x = IndexError)
  /\ (forall r w', o = Done (inl r) w' ->
        (exists msg, r = ErrorValue ValueError msg)
        /\ w' = call w (automated_prompt data) None)
  /\ (forall ft st w', o = Done (inr (ft, st)) w' ->
        exists a b, ft = Some a /\ st = Some b).
Proof.
  intros o. subst o. rewrite automated_run.
  set (text := automated_prompt data).
  set (reply := llm_reply _ _ _).
  destruct (String.eqb reply blocked).
  - simpl. split; [exists []; split; [done | constructor]|]. split; [done|].
    split; [discriminate|]. split.
    + intros r w' [= <- <-]. split; [by eexists | done].
    + discriminate.
  - destruct (calculate_duration _ _ _ _ _) as [d|x] eqn:Hd.
    + set (e := mk_loop_env _ _ _ _ _ _ _ _). set (s := mk_loop_state _ _ _).
      destruct (convergence_loop_effects fuel e s (call w text None))
        as ((l & Hl & Hnone) & Hup & Hexn).
      destruct (convergence_loop fuel e s (call w text None))
        as [s' w1|x w1|w1]; simpl in *.
      * split; [exists l; split; [by rewrite Hl, <- app_assoc | done]|].
        split; [done|]. split; [discriminate|]. split; [discriminate|].
        intros ft st w' [= <- <- _]. by eexists _, _.
      * split; [exists l; split; [by rewrite Hl, <- app_assoc | done]|].
        split; [done|]. split; [|split; discriminate].
        intros x' w' [= <- _]. by eapply Hexn.
      * split; [exists l; split; [by rewrite Hl, <- app_assoc | done]|].
        split; [done|]. repeat split; discriminate.
    + simpl. split; [exists []; split; [done | constructor]|]. split; [done|].
      split; [|split; discriminate].
      intros x' w' [= <- _]. by apply calculate_duration_Raise in Hd.
Qed.

Lemma topic_run (data : Request.t) (w : world) :
  let ft := topic_full_text data in
  let p1 := make_prompt_summarize ft (Request.prompt data) in
  let r1 := llm_reply (length (llm_calls w)) p1 None in
  let p2 := keep_branding_sentences ft in
  let p3 := make_prompt_match_sentence_to_bullet_points ft (strip is_space r1) in
  exists st,
    topic data w
    = Done (Some ft, Some st)
        (call (call (call w p1 None) p2 (Some 0.1%float)) p3 None).
Proof.
  intros ft p1 r1 p2 p3. subst ft p1 r1 p2 p3.
  unfold topic, topic_full_text, mbind, M_bind, send_transcript_to_llm, mret, M_ret.
  eexists. reflexivity.
Qed.

Lemma finish_run (data : Request.t) (transcript_words : list Word.t)
    (video_shots : list Shot.t) (language : Language) (ft st : string) (w : world) :
  finish data transcript_words video_shots language (Some ft) (Some st) w
  = match match_with_video_shots video_shots
            (get_clips_from_transcript language transcript_words st
               (Request.transcript data)) transcript_words with
    | Ok segments =>
        Done (Segments segments)
          (written w [upload_summary_doc ft st;
                      upload_summary_transformation_doc (Request.filename data)
                        ft st (join newline (map Line.text segments))])
    | Raise e => Raised e (written w [upload_summary_doc ft st])
    end.
Proof.
  unfold finish, read_local, written.
  unfold mbind, M_bind, mret, M_ret, upload_summary, lift,
    upload_summary_transformation. simpl.
  destruct (match_with_video_shots _ _ _) as [segments|e]; simpl; [|done].
  by rewrite <- app_assoc.
Qed.

(** The three ways through the handler. *)
Lemma summarize_transcript_cases (fuel : nat) (data : Request.t) (w : world) :
  (Request.version data = PStr "automated"
   /\ summarize_transcript fuel data w
      = match automated fuel data (read_bounds data).1.1 (read_bounds data).1.2
                (words_of data) (shots_of data) (language_of data) w with
        | Done (inl returned) w' => Done returned w'
        | Done (inr (full_text, shortened_text)) w' =>
            finish data (words_of data) (shots_of data) (language_of data)
              full_text shortened_text w'
        | Raised e w' => Raised e w'
        | Diverged w' => Diverged w'
        end)
  \/ (Request.version data = PStr "topic"
      /\ summarize_transcript fuel data w
         = match topic data w with
           | Done (full_text, shortened_text) w' =>
               finish data (words_of data) (shots_of data) (language_of data)
                 full_text shortened_text w'
           | Raised e w' => Raised e w'
           | Diverged w' => Diverged w'
           end)
  \/ (Request.version data <> PStr "automated"
      /\ Request.version data <> PStr "topic"
      /\ summarize_transcript fuel data w = Raised UnboundLocalError w).
Proof.
  unfold summarize_transcript, language_of, words_of, shots_of.
  destruct (read_bounds data) as [[max_duration min_duration] language_code].
  cbn [fst snd].
  destruct (decide (Request.version data = PStr "automated")) as [Ha|Ha].
  - left. split; [done|]. rewrite Ha.
    rewrite (bool_decide_eq_true_2 (PStr "automated" = PStr "automated")) by done.
    rewrite (bool_decide_eq_false_2 (PStr "automated" = PStr "topic")) by done.
    unfold mbind at 1, M_bind.
    destruct (automated _ _ _ _ _ _ _ w) as [[r|[ft st]] w'|e w'|w']; done.
  - right. rewrite (bool_decide_eq_false_2 _ Ha).
    destruct (decide (Request.version data = PStr "topic")) as [Ht|Ht].
    + left. split; [done|]. rewrite (bool_decide_eq_true_2 _ Ht).
      unfold mbind, M_bind, mret, M_ret.
      destruct (topic data w) as [[ft st] w'|e w'|w']; done.
    + right. rewrite (bool_decide_eq_false_2 _ Ht). done.
Qed.

(** X10. What the handler writes.  It returns segments only after writing
    the summary and then the transformation, whose output text is the
    texts of the returned segments joined by newlines; the segments are
    the aligned clips of the shortened text it wrote.  A run that returns
    the error value or does not finish writes nothing, and a run that
    raises has written nothing or the summary alone. *)
Theorem handler_writes (fuel : nat) (data : Request.t) (w : world) :
  match summarize_transcript fuel data w with
  | Done (Segments segments) w' =>
      exists ft st,
        uploads w'
        = uploads w
          ++ [upload_summary_doc ft st;
              upload_summary_transformation_doc (Request.filename data) ft st
                (join newline (map Line.text segments))]
        /\ match_with_video_shots (shots_of data) (clips_of data st) (words_of data)
           = Ok segments
  | Done (ErrorValue _ _) w' => uploads w' = uploads w
  | Raised _ w' =>
      uploads w' = uploads w
      \/ exists ft st, uploads w' = uploads w ++ [upload_summary_doc ft st]
  | Diverged w' => uploads w' = uploads w
  end.
Proof.
  destruct (summarize_transcript_cases fuel data w)
    as [[Ha E]|[[Ht E]|(Ha & Ht & E)]]; rewrite E; clear E.
  - pose proof (automated_effects fuel data (read_bounds data).1.1
                  (read_bounds data).1.2 (words_of data) (shots_of data)
                  (language_of data) w) as Heff.
    cbv zeta in Heff.
    destruct (automated _ _ _ _ _ _ _ w) as [[r|[ft st]] w'|x w'|w'];
      simpl in Heff; destruct Heff as (_ & Hup & _ & Hinl & Hinr).
    + destruct (Hinl r w' eq_refl) as [(msg & ->) _]. done.
    + destruct (Hinr ft st w' eq_refl) as (a & b & -> & ->).
      rewrite finish_run. fold (clips_of data b).
      destruct (match_with_video_shots _ _ _) as [segments|e] eqn:Eseg; simpl.
      * exists a, b. by rewrite Hup.
      * right. exists a, b. by rewrite Hup.
    + by left.
    + done.
  - destruct (topic_run data w) as (st & ->). rewrite finish_run.
    fold (clips_of data st).
    destruct (match_with_video_shots _ _ _) as [segments|e] eqn:Eseg; simpl.
    + by exists (topic_full_text data), st.
    + right. by exists (topic_full_text data), st.
  - by left.
Qed.

(** X11. In automated mode the loop counter [temperature] is never sent to
    the model: the first call is the prompt of the full text and every
    call of the run, however it ends, leaves the temperature to its
    default. *)
Theorem automated_calls_pass_no_temperature (fuel : nat) (data : Request.t)
    (w : world) :
  Request.version data = PStr "automated" ->
  exists l,
    llm_calls (world_of (summarize_transcript fuel data w))
    = llm_calls w ++ (automated_prompt data, None) :: l
    /\ Forall (fun c => c.2 = None) l.
Proof.
  intros Hv.
  destruct (summarize_transcript_cases fuel data w)
    as [[Ha E]|[[Ht E]|(Ha & Ht & E)]]; [|congruence|congruence].
  rewrite E; clear E.
  pose proof (automated_effects fuel data (read_bounds data).1.1
                (read_bounds data).1.2 (words_of data) (shots_of data)
                (language_of data) w) as Heff.
  cbv zeta in Heff.
  destruct (automated _ _ _ _ _ _ _ w) as [[r|[ft st]] w'|x w'|w'];
    simpl in Heff; destruct Heff as (Hcalls & _ & _ & _ & Hinr); try done.
  destruct (Hinr ft st w' eq_refl) as (a & b & -> & ->).
  rewrite finish_run.
  destruct (match_with_video_shots _ _ _) as [segments|e]; done.
Qed.

(** X12. In topic mode the handler calls the model exactly three times,
    whatever the iteration bound and the duration range: for the summary,
    for the branding sentences at temperature 0.1, and for the matching of
    sentences to the stripped summary; and it always comes to an end. *)
Theorem topic_makes_three_calls (fuel : nat) (data : Request.t) (w : world) :
  Request.version data = PStr "topic" ->
  let ft := topic_full_text data in
  let p1 := make_prompt_summarize ft (Request.prompt data) in
  let r1 := llm_reply (length (llm_calls w)) p1 None in
  let p2 := keep_branding_sentences ft in
  let p3 := make_prompt_match_sentence_to_bullet_points ft (strip is_space r1) in
  llm_calls (world_of (summarize_transcript fuel data w))
  = llm_calls w ++ [(p1, None); (p2, Some 0.1%float); (p3, None)]
  /\ forall w', summarize_transcript fuel data w <> Diverged w'.
Proof.
  intros Hv ft p1 r1 p2 p3.
  destruct (summarize_transcript_cases fuel data w)
    as [[Ha E]|[[Ht E]|(Ha & Ht & E)]]; [congruence| |congruence].
  rewrite E; clear E.
  destruct (topic_run data w) as (st & ->). rewrite finish_run.
  destruct (match_with_video_shots _ _ _) as [segments|e]; simpl.
  - split; [by rewrite <- !app_assoc | discriminate].
  - split; [by rewrite <- !app_assoc | discriminate].
Qed.

(** X14. A first attempt that is not blocked and whose duration lies
    within the range is accepted as it is: the loop is not entered, the
    model has been called once, and the handler goes on to write and align
    that text, for every iteration bound. *)
Theorem in_range_first_attempt_is_accepted (fuel : nat) (data : Request.t)
    (w : world) (d : time) :
  Request.version data = PStr "automated" ->
  let reply := llm_reply (length (llm_calls w)) (automated_prompt data) None in
  String.eqb reply blocked = false ->
  duration_of data reply = Ok d ->
  (read_bounds data).1.2 <= d <= (read_bounds data).1.1 ->
  summarize_transcript fuel data w
  = finish data (words_of data) (shots_of data) (language_of data)
      (Some (automated_full_text data)) (Some reply)
      (call w (automated_prompt data) None).
Proof.
  intros Hv reply Hnb Hd Hrange.
  destruct (summarize_transcript_cases fuel data w)
    as [[Ha E]|[[Ht E]|(Ha & Ht & E)]]; [|congruence|congruence].
  rewrite E; clear E. rewrite automated_run. fold reply. rewrite Hnb.
  unfold duration_of in Hd. rewrite Hd.
  assert (Hloop : forall e' s', loop_test e' s' = false ->
            convergence_loop fuel e' s' (call w (automated_prompt data) None)
            = Done s' (call w (automated_prompt data) None)).
  { intros e' s' Htest. destruct fuel; simpl; by rewrite Htest. }
  rewrite Hloop; [done|].
  unfold loop_test. simpl.
  replace ((read_bounds data).1.1 <? d) with false by (symmetry; apply Z.ltb_ge; lia).
  replace (d <? (read_bounds data).1.2) with false by (symmetry; apply Z.ltb_ge; lia).
  reflexivity.
Qed.

(** X15. When every text comes out longer than the maximum, the loop
    gives up after exactly four retries, each on the previous shortened
    text, and hands on a text whose duration is still above the maximum. *)
Theorem too_long_attempts_stop_after_four_retries (e : loop_env) (fuel : nat)
    (s : loop_state) (w : world) :
  (forall text, exists d,
      calculate_duration text (transcript_words e) (video_shots e)
        (input_transcript e) (language e) = Ok d
      /\ max_duration e < d /\ min_duration e <= d) ->
  (4 <= fuel)%nat ->
  temperature s = 0.2%float ->
  max_duration e < duration s -> min_duration e <= duration s ->
  exists s' w',
    convergence_loop fuel e s w = Done s' w'
    /\ length (llm_calls w') = (length (llm_calls w) + 4)%nat
    /\ uploads w' = uploads w
    /\ max_duration e < duration s'
    /\ PrimFloat.ltb (temperature s') 0.6%float = false.
Proof.
  intros Hlong Hfuel Ht Hmax Hmin.
  assert (Hstep : forall n s1 w1,
    PrimFloat.ltb (temperature s1) 0.6%float = true ->
    max_duration e < duration s1 -> min_duration e <= duration s1 ->
    exists d reply text,
      convergence_loop (S n) e s1 w1
      = convergence_loop n e
          (mk_loop_state (PrimFloat.add (temperature s1) 0.1%float) d reply)
          (call w1 text None)
      /\ max_duration e < d /\ min_duration e <= d).
  { intros n s1 w1 Hlt Hmax1 Hmin1.
    rewrite (convergence_loop_not_too_short n e s1 w1 Hmin1).
    unfold loop_test. rewrite Hlt.
    replace (max_duration e <? duration s1) with true
      by (symmetry; apply Z.ltb_lt; lia).
    simpl.
    destruct (Hlong (llm_reply (length (llm_calls w1))
                       (make_prompt (shortened_text s1) (user_prompt e)) None))
      as (d & -> & Hd1 & Hd2).
    by eexists _, _, _. }
  destruct s as [t d0 st0]. simpl in Ht, Hmax, Hmin. subst t.
  do 4 (destruct fuel as [|fuel]; [lia|]).
  destruct (Hstep (S (S (S fuel))) (mk_loop_state 0.2%float d0 st0) w
              eq_refl Hmax Hmin) as (d1 & r1 & t1 & -> & Hmax1 & Hmin1).
  cbn [temperature]. set (temp1 := PrimFloat.add 0.2%float 0.1%float).
  destruct (Hstep (S (S fuel)) (mk_loop_state temp1 d1 r1) (call w t1 None)
              eq_refl Hmax1 Hmin1) as (d2 & r2 & t2 & -> & Hmax2 & Hmin2).
  cbn [temperature]. set (temp2 := PrimFloat.add temp1 0.1%float).
  destruct (Hstep (S fuel) (mk_loop_state temp2 d2 r2)
              (call (call w t1 None) t2 None)
              eq_refl Hmax2 Hmin2) as (d3 & r3 & t3 & -> & Hmax3 & Hmin3).
  cbn [temperature]. set (temp3 := PrimFloat.add temp2 0.1%float).
  destruct (Hstep fuel (mk_loop_state temp3 d3 r3)
              (call (call (call w t1 None) t2 None) t3 None)
              eq_refl Hmax3 Hmin3) as (d4 & r4 & t4 & -> & Hmax4 & Hmin4).
  cbn [temperature].
  eexists _, _. split.
  - destruct fuel; reflexivity.
  - simpl. rewrite !length_app. simpl. repeat split; try done; lia.
Qed.

(** X17. A request whose ['max'] or ['min'] does not convert is handled
    exactly as the same request with max 40, min 10 and language code
    "en-US": in particular a 'th-TH' request is then mapped with the
    default language. *)
Theorem failed_bounds_run_as_defaults (fuel : nat) (data : Request.t) (w : world) :
  (exists e, py_float (Request.max data) = Raise e)
  \/ (exists e, py_float (Request.min data) = Raise e) ->
  summarize_transcript fuel data w
  = summarize_transcript fuel (with_defaults data) w.
Proof.
  intros Hfail.
  assert (Hb : read_bounds data = (40, 10, PStr "en-US")).
  { unfold read_bounds. destruct Hfail as [[e He]|[e He]]; rewrite He; simpl.
    - done.
    - destruct (py_float (Request.max data)); done. }
  unfold summarize_transcript. rewrite Hb.
  change (read_bounds (with_defaults data)) with (40, 10, PStr "en-US").
  reflexivity.
Qed.

Lemma convergence_loop_Done (fuel : nat) (e : loop_env) (s s' : loop_state)
    (w w' : world) :
  convergence_loop fuel e s w = Done s' w' -> loop_test e s' = false.
Proof.
  revert s w. induction fuel as [|fuel IH]; intros s w; simpl.
  - destruct (loop_test e s) eqn:Ht; [discriminate|]. by intros [= <- _].
  - destruct (loop_test e s) eqn:Ht; [|by intros [= <- _]].
    unfold mbind, M_bind.
    destruct (loop_body e s w) as [s1 w1|x w1|w1]; [|discriminate|discriminate].
    apply IH.
Qed.

(** X16. The retry budget: as long as no text comes out shorter than the
    minimum, the loop started at temperature 0.2 ends within four more
    calls to the model, either by an IndexError of an alignment or with a
    state that fails its test: a duration within range, or a temperature
    that has reached 0.6. *)
Theorem loop_ends_within_four_retries (e : loop_env) (fuel : nat)
    (s : loop_state) (w : world) :
  (forall text d,
      calculate_duration text (transcript_words e) (video_shots e)
        (input_transcript e) (language e) = Ok d ->
      min_duration e <= d) ->
  (4 <= fuel)%nat -> temperature s = 0.2%float -> min_duration e <= duration s ->
  exists w',
    ((exists s', convergence_loop fuel e s w = Done s' w'
                 /\ loop_test e s' = false)
     \/ convergence_loop fuel e s w = Raised IndexError w')
    /\ (length (llm_calls w') <= length (llm_calls w) + 4)%nat.
Proof.
  intros Hnever Hfuel Ht Hmin.
  destruct (halts_within_four_when_never_too_short e fuel s w Hnever Hfuel Ht Hmin)
    as (w' & [(s' & Hdone)|(x & Hraised)] & Hlen).
  - exists w'. split; [|done]. left. exists s'. split; [done|].
    by eapply convergence_loop_Done.
  - exists w'. split; [|done]. right.
    destruct (convergence_loop_effects fuel e s w) as (_ & _ & Hexn).
    by rewrite (Hexn x w' Hraised) in Hraised.
Qed.

(** X18. The one place where a blocked reply is noticed: when the first
    reply of the automated branch is the sentinel, the handler returns the
    ValueError object at once, for every iteration bound and duration
    range, having called the model once and written nothing. *)
Theorem blocked_first_attempt_returns_error_value (fuel : nat) (data : Request.t)
    (w : world) :
  Request.version data = PStr "automated" ->
  llm_reply (length (llm_calls w)) (automated_prompt data) None = blocked ->
  summarize_transcript fuel data w
  = Done (ErrorValue ValueError
            "The response was blocked due to potential violation of Responsible AI")
         (mk_world (llm_calls w ++ [(automated_prompt data, None)]) (uploads w)).
Proof.
  intros Hv Hreply.
  by rewrite (first_attempt_blocked_is_returned fuel data w Hv Hreply).
Qed.

End Handler.

Lemma automated_calls_pass_no_temperature_witness :
  Request.version automated_request = PStr "automated"
  /\ exists l,
      llm_calls (world_of (summarize_transcript (H := scripted long_then_blocked)
                             4 automated_request nothing_yet))
      = llm_calls nothing_yet
        ++ (automated_prompt (H := scripted long_then_blocked) automated_request,
            None) :: l
      /\ Forall (fun c => c.2 = None) l.
Proof.
  split; [reflexivity|].
  apply (automated_calls_pass_no_temperature (H := scripted long_then_blocked)).
  reflexivity.
Defined.

Lemma topic_makes_three_calls_witness :
  Request.version topic_request = PStr "topic"
  /\ llm_calls (world_of (summarize_transcript (H := scripted always_blocked)
                            0 topic_request nothing_yet))
     = [("Line 0: a b c d", None); ("Line 0: a b c d", Some 0.1%float);
        ("Line 0: a b c d", None)]
  /\ forall w',
       summarize_transcript (H := scripted always_blocked) 0 topic_request
         nothing_yet <> Diverged w'.
Proof.
  split; [reflexivity|].
  apply (topic_makes_three_calls (H := scripted always_blocked) 0 topic_request
           nothing_yet).
  reflexivity.
Defined.

Lemma in_range_first_attempt_is_accepted_witness :
  let data := sample_request (PStr "automated") (PNum 50) (PNum 10) (PStr "en-US") in
  Request.version data = PStr "automated"
  /\ String.eqb "long" blocked = false
  /\ duration_of (H := always_long) data "long" = Ok 45
  /\ (read_bounds (H := always_long) data).1.2 <= 45
     <= (read_bounds (H := always_long) data).1.1
  /\ summarize_transcript (H := always_long) 0 data nothing_yet
     = finish data (words_of data)
         (shots_of (H := always_long) data) (language_of (H := always_long) data)
         (Some "a b c d") (Some "long") (call nothing_yet "a b c d" None).
Proof.
  assert (Hrange : (read_bounds (H := always_long)
                      (sample_request (PStr "automated") (PNum 50) (PNum 10)
                         (PStr "en-US"))).1.2 <= 45
                   <= (read_bounds (H := always_long)
                         (sample_request (PStr "automated") (PNum 50) (PNum 10)
                            (PStr "en-US"))).1.1) by (simpl; lia).
  split; [reflexivity|]. split; [reflexivity|]. split; [reflexivity|].
  split; [exact Hrange|].
  exact (in_range_first_attempt_is_accepted (H := always_long) 0
           (sample_request (PStr "automated") (PNum 50) (PNum 10) (PStr "en-US"))
           nothing_yet 45 eq_refl eq_refl eq_refl Hrange).
Defined.

Lemma every_text_is_long (text : string) :
  calculate_duration text (transcript_words long_loop_env)
    (video_shots long_loop_env) (input_transcript long_loop_env)
    (language long_loop_env) = Ok 45.
Proof. reflexivity. Qed.

Lemma too_long_attempts_stop_after_four_retries_witness :
  (forall text, exists d,
      calculate_duration text (transcript_words long_loop_env)
        (video_shots long_loop_env) (input_transcript long_loop_env)
        (language long_loop_env) = Ok d
      /\ max_duration long_loop_env < d /\ min_duration long_loop_env <= d)
  /\ (4 <= 4)%nat
  /\ max_duration long_loop_env < 45 /\ min_duration long_loop_env <= 45
  /\ exists s' w',
      convergence_loop (H := always_long) 4 long_loop_env
        (mk_loop_state 0.2%float 45 "long") nothing_yet = Done s' w'
      /\ length (llm_calls w') = (length (llm_calls nothing_yet) + 4)%nat
      /\ uploads w' = uploads nothing_yet
      /\ max_duration long_loop_env < duration s'
      /\ PrimFloat.ltb (temperature s') 0.6%float = false.
Proof.
  assert (Hlong : forall text, exists d,
      calculate_duration text (transcript_words long_loop_env)
        (video_shots long_loop_env) (input_transcript long_loop_env)
        (language long_loop_env) = Ok d
      /\ max_duration long_loop_env < d /\ min_duration long_loop_env <= d).
  { intros text. exists 45. split; [apply every_text_is_long|]. simpl. lia. }
  assert (Hfuel : (4 <= 4)%nat) by lia.
  assert (Hmax : max_duration long_loop_env < 45) by (simpl; lia).
  assert (Hmin : min_duration long_loop_env <= 45) by (simpl; lia).
  split; [exact Hlong|]. split; [exact Hfuel|]. split; [exact Hmax|].
  split; [exact Hmin|].
  exact (too_long_attempts_stop_after_four_retries (H := always_long)
           long_loop_env 4 (mk_loop_state 0.2%float 45 "long") nothing_yet
           Hlong Hfuel eq_refl Hmax Hmin).
Defined.

Lemma loop_ends_within_four_retries_witness :
  (forall text d,
      calculate_duration text (transcript_words long_loop_env)
        (video_shots long_loop_env) (input_transcript long_loop_env)
        (language long_loop_env) = Ok d ->
      min_duration long_loop_env <= d)
  /\ (4 <= 4)%nat
  /\ min_duration long_loop_env <= 45
  /\ exists w',
      ((exists s',
           convergence_loop (H := always_long) 4 long_loop_env
             (mk_loop_state 0.2%float 45 "long") nothing_yet = Done s' w'
           /\ loop_test long_loop_env s' = false)
       \/ convergence_loop (H := always_long) 4 long_loop_env
            (mk_loop_state 0.2%float 45 "long") nothing_yet
          = Raised IndexError w')
      /\ (length (llm_calls w') <= length (llm_calls nothing_yet) + 4)%nat.
Proof.
  assert (Hnever : forall text d,
      calculate_duration text (transcript_words long_loop_env)
        (video_shots long_loop_env) (input_transcript long_loop_env)
        (language long_loop_env) = Ok d ->
      min_duration long_loop_env <= d).
  { intros text d Hd. rewrite every_text_is_long in Hd. injection Hd as <-.
    simpl. lia. }
  assert (Hfuel : (4 <= 4)%nat) by lia.
  assert (Hmin : min_duration long_loop_env <= 45) by (simpl; lia).
  split; [exact Hnever|]. split; [exact Hfuel|]. split; [exact Hmin|].
  exact (loop_ends_within_four_retries (H := always_long)
           long_loop_env 4 (mk_loop_state 0.2%float 45 "long") nothing_yet
           Hnever Hfuel eq_refl Hmin).
Defined.

Lemma failed_bounds_run_as_defaults_witness :
  let data := sample_request (PStr "topic") (PNum 30) PNone (PStr "th-TH") in
  ((exists e, py_float (H := scripted always_blocked) (Request.max data) = Raise e)
   \/ (exists e, py_float (H := scripted always_blocked) (Request.min data) = Raise e))
  /\ summarize_transcript (H := scripted always_blocked) 0 data nothing_yet
     = summarize_transcript (H := scripted always_blocked) 0 (with_defaults data)
         nothing_yet.
Proof.
  assert (Hfail : (exists e, py_float (H := scripted always_blocked)
                               (PNum 30) = Raise e)
                  \/ (exists e, py_float (H := scripted always_blocked)
                                  PNone = Raise e)).
  { right. exists TypeError. reflexivity. }
  split; [exact Hfail|].
  exact (failed_bounds_run_as_defaults (H := scripted always_blocked) 0
           (sample_request (PStr "topic") (PNum 30) PNone (PStr "th-TH"))
           nothing_yet Hfail).
Defined.

Lemma blocked_first_attempt_returns_error_value_witness :
  Request.version automated_request = PStr "automated"
  /\ llm_reply (Collaborators := scripted always_blocked)
       (length (llm_calls nothing_yet))
       (automated_prompt (H := scripted always_blocked) automated_request) None
     = blocked
  /\ summarize_transcript (H := scripted always_blocked) 4 automated_request
       nothing_yet
     = Done (ErrorValue ValueError
               "The response was blocked due to potential violation of Responsible AI")
            (mk_world
               (llm_calls nothing_yet
                ++ [(automated_prompt (H := scripted always_blocked)
                       automated_request, None)])
               (uploads nothing_yet)).
Proof.
  split; [reflexivity|]. split; [reflexivity|].
  exact (blocked_first_attempt_returns_error_value (H := scripted always_blocked) 4
           automated_request nothing_yet eq_refl eq_refl).
Defined.

End ServiceExtras.
